(** * kvp1703/tools: transcript extractor and directory diff checker

  A shallow embedding of the two scripts of the repository,
  [youtube_transcript_extractor.py] and [dir_diff_checker.py], and the
  properties their specification states about them.

  Python [str] values are modelled as [string] (the UTF-8 bytes of the
  text).  Every pattern, delimiter and replaced character in the two
  scripts is ASCII, and no byte of a multi-byte UTF-8 sequence is ASCII,
  so matching on bytes and matching on code points agree. *)

From Stdlib Require Import Ascii String ZArith Lia Decimal DecimalString DecimalN DecimalPos.
From stdpp Require Import gmap strings list sorting.

(** ** Python built-ins used by the scripts *)
Module Py.

(** Exceptions: the class name and [str(e)]. *)
Inductive exn : Type := Exn (cls : string) (msg : string).

Definition str_of_exn (e : exn) : string :=
  match e with Exn _ msg => msg end.

Definition ValueError (msg : string) : exn := Exn "ValueError" msg.

(** The outcome of a call: a value, or a raised exception. *)
Inductive result (A : Type) : Type :=
| Return (a : A)
| Raise (e : exn).
Global Arguments Return {A} a.
Global Arguments Raise {A} e.

Definition bind {A B} (r : result A) (k : A → result B) : result B :=
  match r with
  | Return a => k a
  | Raise e => Raise e
  end.

(** [try: body  except Exception as e: handler(e)] *)
Definition try_except {A} (body : result A) (handler : exn → result A)
  : result A :=
  match body with
  | Return a => Return a
  | Raise e => handler e
  end.

Definition LF : ascii := "010"%char.
Definition DQUOTE : string := String "034"%char "".

(** [s.startswith(pre)] *)
Fixpoint startswith (s pre : string) {struct pre} : bool :=
  match pre with
  | EmptyString => true
  | String p pre' =>
      match s with
      | EmptyString => false
      | String c s' => if Ascii.eqb c p then startswith s' pre' else false
      end
  end.

(** [s.endswith(suf)]: [s] is [suf], or the tail of [s] ends with [suf]. *)
Fixpoint endswith (s suf : string) : bool :=
  if String.eqb s suf then true
  else match s with
       | EmptyString => false
       | String _ s' => endswith s' suf
       end.

(** [s[n:]] *)
Fixpoint drop (n : nat) (s : string) : string :=
  match n, s with
  | O, _ => s
  | S _, EmptyString => EmptyString
  | S n', String _ s' => drop n' s'
  end.

(** [s.replace(old, new)] for a non-empty [old]: occurrences are taken
    left to right and do not overlap.  [skip] counts the characters of the
    occurrence just replaced that remain to be passed over. *)
Fixpoint replace_from (old new : string) (skip : nat) (s : string) : string :=
  match s with
  | EmptyString => EmptyString
  | String c s' =>
      match skip with
      | S k => replace_from old new k s'
      | O =>
          if startswith s old
          then new +:+ replace_from old new (String.length old - 1) s'
          else String c (replace_from old new 0 s')
      end
  end.

(** [s.replace("", new)] puts [new] before every character and at the end. *)
Fixpoint intersperse (new s : string) : string :=
  match s with
  | EmptyString => new
  | String c s' => new +:+ String c (intersperse new s')
  end.

Definition replace (s old new : string) : string :=
  match old with
  | EmptyString => intersperse new s
  | _ => replace_from old new 0 s
  end.

(** The first three bytes of [s] (256 where [s] is shorter). *)
Definition byte_at (n : nat) (s : string) : N :=
  match String.get n s with
  | Some c => N_of_ascii c
  | None => 256%N
  end.

(** [str.isspace] by UTF-8 encoding.  One byte: TAB, LF, VT, FF, CR, the
    separators FS, GS, RS, US, and the space. *)
Definition is_ws1 (a : N) : bool :=
  ((9 <=? a) && (a <=? 13) || (28 <=? a) && (a <=? 32))%N.

(** Two bytes: U+0085 and U+00A0. *)
Definition is_ws2 (a b : N) : bool :=
  ((a =? 194) && ((b =? 133) || (b =? 160)))%N.

(** Three bytes: U+1680, U+2000 to U+200A, U+2028, U+2029, U+202F,
    U+205F and U+3000. *)
Definition is_ws3 (a b c : N) : bool :=
  ((a =? 225) && (b =? 154) && (c =? 128)
   || (a =? 226) && (b =? 128)
      && ((128 <=? c) && (c <=? 138) || (c =? 168) || (c =? 169) || (c =? 175))
   || (a =? 226) && (b =? 129) && (c =? 159)
   || (a =? 227) && (b =? 128) && (c =? 128))%N.

(** Length in bytes of the whitespace character [s] starts with, or 0. *)
Definition ws_len (s : string) : nat :=
  let a := byte_at 0 s in let b := byte_at 1 s in let c := byte_at 2 s in
  if is_ws1 a then 1
  else if is_ws2 a b then 2
  else if is_ws3 a b c then 3
  else 0.

(** The same for the character a string ends with, on the reversed string. *)
Definition ws_len_rev (r : string) : nat :=
  let a := byte_at 0 r in let b := byte_at 1 r in let c := byte_at 2 r in
  if is_ws1 a then 1
  else if is_ws2 b a then 2
  else if is_ws3 c b a then 3
  else 0.

Fixpoint strip_go (len : string → nat) (fuel : nat) (s : string) : string :=
  match fuel with
  | O => s
  | S fuel' =>
      match len s with
      | O => s
      | k => strip_go len fuel' (drop k s)
      end
  end.

Definition lstrip (s : string) : string :=
  strip_go ws_len (String.length s) s.

Definition rstrip (s : string) : string :=
  String.rev (strip_go ws_len_rev (String.length s) (String.rev s)).

(** [s.strip()] *)
Definition strip (s : string) : string := rstrip (lstrip s).

(** [posixpath.join(a, b)] *)
Definition os_path_join (a b : string) : string :=
  if startswith b "/" then b
  else if String.eqb a "" || endswith a "/" then a +:+ b
  else a +:+ "/" +:+ b.

(** The files written by a script: path to content.  [open(path, "w")]
    followed by writes replaces what the path held; opening a file for
    writing is taken to succeed. *)
Definition write_file (path content : string) (fs : gmap string string)
  : gmap string string :=
  <[path := content]> fs.

(** A Python [float]: a finite value [(-1)^neg * m * 2^e] (every finite
    double is of this form; [m = 0] is a zero), an infinity, or a NaN. *)
Inductive float : Type :=
| Finite (neg : bool) (m : N) (e : Z)
| Infinity (neg : bool)
| NaN.

(** [num / den] rounded to the nearest integer, ties to even. *)
Definition round_half_even (num den : N) : N :=
  let q := (num / den)%N in
  let r := (num mod den)%N in
  if (2 * r <? den)%N then q
  else if (den <? 2 * r)%N then (q + 1)%N
  else if N.even q then q else (q + 1)%N.

(** [|x| * 100] rounded to the nearest integer, for [|x| = m * 2^e]. *)
Definition hundredths (m : N) (e : Z) : N :=
  match e with
  | Zneg p => round_half_even (m * 100) (2 ^ Npos p)
  | _ => (m * 100 * 2 ^ Z.to_N e)%N
  end.

Definition digit (d : N) : ascii := ascii_of_N (48 + d).

Definition two_digits (n : N) : string :=
  String (digit (n / 10)) (String (digit (n mod 10)) EmptyString).

(** [format(x, "0.2f")]: fixed point with two decimals, correctly rounded
    from the exact value; the sign of a negative value is kept even when
    it rounds to zero. *)
Definition format_2f (x : float) : string :=
  match x with
  | Finite neg m e =>
      let n := hundredths m e in
      (if neg then "-" else "")
      +:+ NilZero.string_of_uint (N.to_uint (n / 100))
      +:+ "." +:+ two_digits (n mod 100)
  | Infinity neg => if neg then "-inf" else "inf"
  | NaN => "nan"
  end.

End Py.

(** ** youtube_transcript_extractor.py *)
Module Yt.
Import Py.

(** The character class [[0-9A-Za-z_-]]. *)
Definition is_id_char (c : ascii) : bool :=
  let n := nat_of_ascii c in
  ((48 <=? n) && (n <=? 57)) || ((65 <=? n) && (n <=? 90))
  || ((97 <=? n) && (n <=? 122)) || (n =? 95) || (n =? 45).

(** [([0-9A-Za-z_-]{n})]: the group and what follows it. *)
Fixpoint match_group (n : nat) (s : string) : option (string * string) :=
  match n with
  | O => Some (EmptyString, s)
  | S n' =>
      match s with
      | EmptyString => None
      | String c s' =>
          if is_id_char c then
            match match_group n' s' with
            | Some (tok, rest) => Some (String c tok, rest)
            | None => None
            end
          else None
      end
  end.

(** [(?:\?|&|#|$)].  Without [re.MULTILINE], [$] matches at the end of the
    string and also just before a newline that ends the string. *)
Definition match_delim (s : string) : bool :=
  match s with
  | EmptyString => true
  | String c rest =>
      Ascii.eqb c "?" || Ascii.eqb c "&" || Ascii.eqb c "#"
      || (Ascii.eqb c LF && String.eqb rest "")
  end.

(** The pattern after one of the alternatives of [(?:v=|\/)] matched. *)
Definition match_after (lead s : string) : option string :=
  if startswith s lead then
    match match_group 11 (drop (String.length lead) s) with
    | Some (tok, rest) => if match_delim rest then Some tok else None
    | None => None
    end
  else None.

(** The whole pattern anchored at the start of [s]; the alternatives are
    tried in the order they are written. *)
Definition match_here (s : string) : option string :=
  match match_after "v=" s with
  | Some tok => Some tok
  | None => match_after "/" s
  end.

(** [re.search(pattern, url)]: the match at the leftmost position;
    the value is [match.group(1)]. *)
Fixpoint re_search_id (s : string) : option string :=
  match match_here s with
  | Some tok => Some tok
  | None =>
      match s with
      | EmptyString => None
      | String _ s' => re_search_id s'
      end
  end.

Definition extract_video_id (url : string) : result string :=
  match re_search_id url with
  | Some tok => Return tok
  | None => Raise (ValueError ("Invalid YouTube URL or missing video ID: " +:+ url))
  end.


(** *** fetch_video_title *)

(** What the two network libraries answer: [YouTube(url).title] of pytube,
    and [requests.get(url)] with its [raise_for_status()] and [text]. *)
Record response : Type := {
  raise_for_status : result unit;
  text : string
}.

Record web : Type := {
  pytube_title : string → result string;
  requests_get : string → result response
}.

(** A literal of a pattern at the start of [s]: what follows it. *)
Fixpoint match_lit (pat s : string) {struct pat} : option string :=
  match pat with
  | EmptyString => Some s
  | String p pat' =>
      match s with
      | EmptyString => None
      | String c s' => if Ascii.eqb c p then match_lit pat' s' else None
      end
  end.

Definition lower (c : ascii) : ascii :=
  let n := nat_of_ascii c in
  if (65 <=? n) && (n <=? 90) then ascii_of_nat (n + 32) else c.

(** One pattern character under [re.IGNORECASE], for the characters of
    [<title>] and [</title>]: the ASCII letter in either case, and for [i]
    also U+0130 and U+0131 (bytes C4 B0 and C4 B1), which the [re] module
    treats as case variants of [i]. *)
Definition match_char_ci (p : ascii) (s : string) : option string :=
  match s with
  | EmptyString => None
  | String c r =>
      if Ascii.eqb (lower c) (lower p) then Some r
      else if Ascii.eqb (lower p) "i" && (N_of_ascii c =? 196)%N then
        match r with
        | String d r' =>
            if ((N_of_ascii d =? 176) || (N_of_ascii d =? 177))%N
            then Some r' else None
        | EmptyString => None
        end
      else None
  end.

Fixpoint match_lit_ci (pat s : string) : option string :=
  match pat with
  | EmptyString => Some s
  | String p pat' =>
      match match_char_ci p s with
      | Some r => match_lit_ci pat' r
      | None => None
      end
  end.

(** [(.*?)] followed by a literal: the shortest run of characters other
    than a newline after which [close] matches. *)
Fixpoint lazy_group (close : string → option string) (s : string)
  : option string :=
  match close s with
  | Some _ => Some EmptyString
  | None =>
      match s with
      | EmptyString => None
      | String c s' =>
          if Ascii.eqb c LF then None
          else match lazy_group close s' with
               | Some g => Some (String c g)
               | None => None
               end
      end
  end.

(** [re.search] of [open(.*?)close]: group 1 of the leftmost match. *)
Fixpoint re_search_group (open close : string → option string) (s : string)
  : option string :=
  match
    match open s with
    | Some r => lazy_group close r
    | None => None
    end
  with
  | Some g => Some g
  | None =>
      match s with
      | EmptyString => None
      | String _ s' => re_search_group open close s'
      end
  end.

(** [re.search(r'<meta property="og:title" content="(.*?)"', html)] *)
Definition og_title_search (html : string) : option string :=
  re_search_group
    (match_lit ("<meta property=" +:+ DQUOTE +:+ "og:title" +:+ DQUOTE
                +:+ " content=" +:+ DQUOTE))
    (match_lit DQUOTE) html.

(** [re.search(r'<title>(.*?)</title>', html, re.IGNORECASE)] *)
Definition title_tag_search (html : string) : option string :=
  re_search_group (match_lit_ci "<title>") (match_lit_ci "</title>") html.

(** The fallback of [fetch_video_title], from the response text on. *)
Definition title_from_html (html : string) : result string :=
  match og_title_search html with
  | Some og => Return og
  | None =>
      match title_tag_search html with
      | Some title_raw => Return (strip (replace title_raw " - YouTube" ""))
      | None => Raise (Exn "Exception" "Could not retrieve video title from HTML")
      end
  end.

Definition fetch_video_title (w : web) (url : string) : result string :=
  match pytube_title w url with
  | Return title => Return title
  | Raise _ =>
      bind (requests_get w url) (λ response,
      bind (raise_for_status response) (λ _,
      title_from_html (text response)))
  end.


(** *** save_transcript *)

(** A transcript entry: a dict with the keys ["text"], ["start"] and
    ["duration"]; [None] stands for an absent key. *)
Record entry : Type := {
  entry_text : option string;
  entry_start : option float;
  entry_duration : option float
}.

(** [entry.get("start", 0.0)] and [entry.get("text", "")] *)
Definition get_start (e : entry) : float :=
  default (Finite false 0 0) (entry_start e).
Definition get_text (e : entry) : string :=
  default EmptyString (entry_text e).

Definition NL : string := String LF EmptyString.

Definition entry_line (e : entry) : string :=
  let start := get_start e in
  let text := get_text e in
  "[" +:+ format_2f start +:+ "] " +:+ text +:+ NL.

Fixpoint entry_lines (transcript : list entry) : string :=
  match transcript with
  | [] => EmptyString
  | e :: rest => entry_line e +:+ entry_lines rest
  end.

(** Everything [save_transcript] writes to the file, in order. *)
Definition transcript_text (transcript : list entry) (url title : string)
  : string :=
  ("Video Title: " +:+ title +:+ NL)
  +:+ ("Video URL: " +:+ url +:+ NL +:+ NL)
  +:+ entry_lines transcript.

Definition save_transcript (transcript : list entry)
    (output_path url title : string) (fs : gmap string string)
  : gmap string string :=
  write_file output_path (transcript_text transcript url title) fs.

(** *** main: the output path *)

(** The character class of the [re.sub] that makes the title safe:
    backslash, slash, star, question mark, colon, double quote, the two
    angle brackets and the bar; each is replaced by an underscore. *)
Definition is_unsafe (c : ascii) : bool :=
  Ascii.eqb c "\" || Ascii.eqb c "/" || Ascii.eqb c "*" || Ascii.eqb c "?"
  || Ascii.eqb c ":" || Ascii.eqb c "034" || Ascii.eqb c "<"
  || Ascii.eqb c ">" || Ascii.eqb c "|".

Fixpoint sanitize (title : string) : string :=
  match title with
  | EmptyString => EmptyString
  | String c t => String (if is_unsafe c then "_"%char else c) (sanitize t)
  end.

(** The title and the safe title after the [try] around
    [fetch_video_title]. *)
Definition titles (video_id : string) (fetched : result string)
  : string * string :=
  match fetched with
  | Return title => (title, sanitize title)
  | Raise _ => (video_id, video_id)
  end.

(** [args.output or default_name]: [None] and the empty string are falsy. *)
Definition output_path (output : option string) (safe_title video_id : string)
  : string :=
  let output_dir := "transcripts" in
  let default_name := safe_title +:+ "_" +:+ video_id +:+ "_transcript.txt" in
  let output_filename :=
    match output with
    | None => default_name
    | Some o => if String.eqb o "" then default_name else o
    end in
  os_path_join output_dir output_filename.

Record args : Type := {
  url : string;
  languages : option (list string);
  output : option string
}.

(** [main]: the exit status, the path the transcript was saved at (if the
    save step was reached), the directories and the files afterwards.
    [fetch_transcript] is the answer of youtube_transcript_api;
    [os.makedirs(output_dir, exist_ok=True)] adds the directory. *)
Definition main (w : web)
    (fetch_transcript : string → option (list string) → result (list entry))
    (a : args) (dirs : gset string) (fs : gmap string string)
  : nat * option string * gset string * gmap string string :=
  match extract_video_id (strip (url a)) with
  | Raise _ => (1, None, dirs, fs)
  | Return video_id =>
      let canonical_url := "https://www.youtube.com/watch?v=" +:+ video_id in
      let '(title, safe_title) :=
        titles video_id (fetch_video_title w canonical_url) in
      let output_dir := "transcripts" in
      let dirs := {[ output_dir ]} ∪ dirs in
      let path := output_path (output a) safe_title video_id in
      match fetch_transcript video_id (languages a) with
      | Return transcript =>
          (0, Some path, dirs,
           save_transcript transcript path canonical_url title fs)
      | Raise _ => (1, None, dirs, fs)
      end
  end.

(** *** Reading a transcript file back *)

(** Modelled from the spec: the reader of a transcript file is not part of
    the repository.  The text is cut into lines at every newline; a newline
    that ends the text does not open a further line. *)
Fixpoint lines (s : string) : list string :=
  match s with
  | EmptyString => []
  | String c s' =>
      if Ascii.eqb c LF then EmptyString :: lines s'
      else match lines s' with
           | [] => [String c EmptyString]
           | l :: ls => String c l :: ls
           end
  end.

(** [s] cut at the first [sep]. *)
Fixpoint split_at (sep : ascii) (s : string) : option (string * string) :=
  match s with
  | EmptyString => None
  | String c s' =>
      if Ascii.eqb c sep then Some (EmptyString, s')
      else match split_at sep s' with
           | Some (a, b) => Some (String c a, b)
           | None => None
           end
  end.

Definition digit_val (c : ascii) : option N :=
  let n := N_of_ascii c in
  if ((48 <=? n) && (n <=? 57))%N then Some (n - 48)%N else None.

(** Modelled from the spec: an unsigned decimal number with two decimals,
    read as a number of hundredths. *)
Definition parse_unsigned_2f (body : string) : option N :=
  match split_at "." body with
  | Some (ip, String a (String b EmptyString)) =>
      match NilZero.uint_of_string ip, digit_val a, digit_val b with
      | Some d, Some x, Some y => Some (N.of_uint d * 100 + x * 10 + y)%N
      | _, _, _ => None
      end
  | _ => None
  end.

(** Modelled from the spec: the same with an optional minus sign. *)
Definition parse_2f (s : string) : option Z :=
  match s with
  | String c r =>
      if Ascii.eqb c "-" then (λ n, (- Z.of_N n)%Z) <$> parse_unsigned_2f r
      else Z.of_N <$> parse_unsigned_2f s
  | EmptyString => None
  end.

(** Modelled from the spec: one line [[start] text]. *)
Definition parse_entry_line (line : string) : option (Z * string) :=
  match line with
  | String c r =>
      if Ascii.eqb c "[" then
        match split_at "]" r with
        | Some (num, String sp text) =>
            if Ascii.eqb sp " " then
              match parse_2f num with
              | Some start => Some (start, text)
              | None => None
              end
            else None
        | _ => None
        end
      else None
  | EmptyString => None
  end.

(** Modelled from the spec: skip the title line, the URL line and the blank
    line, then read every entry line. *)
Definition parse_transcript (file : string) : option (list (Z * string)) :=
  match lines file with
  | _ :: _ :: _ :: ls => mapM parse_entry_line ls
  | _ => None
  end.

(** The value of a finite float rounded to two decimals, in hundredths. *)
Definition round_2 (x : float) : option Z :=
  match x with
  | Finite neg m e =>
      let n := Z.of_N (hundredths m e) in
      Some (if neg then (- n)%Z else n)
  | _ => None
  end.

(** *** fetch_transcript *)

(** What youtube_transcript_api answers.  A transcript object of the
    library: its [lang_code] attribute and its [fetch()]. *)
Record transcript : Type := {
  lang_code : result string;
  fetch : result (list entry)
}.

(** The object [list_transcripts] returns: the three finders and the two
    attributes the source reads; each may raise. *)
Record transcript_list : Type := {
  find_transcript : list string → result transcript;
  find_manually_created_transcript : list string → result transcript;
  find_generated_transcript : list string → result transcript;
  manually_created_transcripts : result (list transcript);
  generated_transcripts : result (list transcript)
}.

Record api : Type := {
  get_transcript : string → result (list entry);
  list_transcripts : string → result transcript_list
}.

(** [except HTTPError]: the class of the exception decides. *)
Definition is_HTTPError (e : exn) : bool :=
  match e with Exn cls _ => String.eqb cls "HTTPError" end.

(** [[t.lang_code for t in ts]]: the first attribute that raises ends the
    comprehension. *)
Fixpoint lang_codes (ts : list transcript) : result (list string) :=
  match ts with
  | [] => Return []
  | t :: rest =>
      bind (lang_code t) (λ c,
      bind (lang_codes rest) (λ cs, Return (c :: cs)))
  end.

(** [if languages:] is false for [None] and for the empty list. *)
Definition truthy (languages : option (list string)) : option (list string) :=
  match languages with
  | Some (l :: ls) => Some (l :: ls)
  | _ => None
  end.

Definition fetch_transcript (y : api) (video_id : string)
    (languages : option (list string)) : result (list entry) :=
  match get_transcript y video_id with
  | Return t => Return t
  | Raise e =>
      if is_HTTPError e then
        bind (list_transcripts y video_id) (λ transcripts,
        bind
          (match truthy languages with
           | Some langs => find_transcript transcripts langs
           | None =>
               try_except
                 (bind (manually_created_transcripts transcripts) (λ ts,
                  bind (lang_codes ts) (λ codes,
                  find_manually_created_transcript transcripts codes)))
                 (λ _,
                  bind (generated_transcripts transcripts) (λ ts,
                  bind (lang_codes ts) (λ codes,
                  find_generated_transcript transcripts codes)))
           end)
          fetch)
      else Raise e
  end.

End Yt.

(** ** dir_diff_checker.py *)
Module Dd.
Import Py.

Global Instance byte_eq_dec : EqDecision Byte.byte := Byte.byte_eq_dec.

(** *** The directory trees *)

(** What a directory entry that is not a directory can be: a regular file
    with its bytes (readable by the user or not), something that exists
    but is not a regular file (a FIFO, a socket, a device), or a symbolic
    link whose target is missing. *)
Inductive fkind : Type :=
| Regular (data : list Byte.byte) (readable : bool)
| Special
| Dangling.

#[warnings="-register-all"]
Inductive node : Type :=
| File (k : fkind)
| Dir (entries : list (string * node)).

Definition is_dir (n : node) : bool :=
  match n with Dir _ => true | File _ => false end.

(** The two name lists [os.walk] yields for a directory. *)
Definition dirnames (entries : list (string * node)) : list string :=
  (filter (λ e, is_dir e.2) entries).*1.
Definition filenames (entries : list (string * node)) : list string :=
  (filter (λ e, negb (is_dir e.2)) entries).*1.

(** [os.walk(top)], top-down: the triple of a directory, then the walks of
    its sub-directories.  A [top] that is not a directory yields nothing. *)
Fixpoint os_walk (top : string) (n : node)
  : list (string * list string * list string) :=
  match n with
  | File _ => []
  | Dir entries =>
      (top, dirnames entries, filenames entries)
      :: (fix walk_dirs (es : list (string * node)) :=
            match es with
            | [] => []
            | (name, child) :: es' =>
                (if is_dir child then os_walk (os_path_join top name) child
                 else [])
                ++ walk_dirs es'
            end) entries
  end.

(** [any(file.endswith(ext) for ext in extensions)] *)
Definition any_endswith (file : string) (extensions : list string) : bool :=
  existsb (endswith file) extensions.

(** The test of line 20: [None] and the empty list are falsy. *)
Definition skipped (extensions : option (list string)) (file : string) : bool :=
  match extensions with
  | None | Some [] => false
  | Some exts => negb (any_endswith file exts)
  end.

(** [get_file_list].  The walk starts from the empty path, so that [root]
    is already relative to [dir_path] and [os.path.relpath] of the joined
    path is the joined path itself. *)
Definition get_file_list (dir_path : node) (extensions : option (list string))
  : list string :=
  '(root, _, files) ← os_walk "" dir_path;
  file ← files;
  if skipped extensions file then []
  else
    let file_path := os_path_join root file in
    let rel_path := file_path in
    [rel_path].

(** *** Access to a file by its path *)

(** [path.split("/")] *)
Fixpoint components (path : string) : list string :=
  match path with
  | EmptyString => [EmptyString]
  | String c p' =>
      if Ascii.eqb c "/" then EmptyString :: components p'
      else match components p' with
           | [] => [String c EmptyString]
           | x :: xs => String c x :: xs
           end
  end.

Fixpoint entry_named (name : string) (entries : list (string * node))
  : option node :=
  match entries with
  | [] => None
  | (n, child) :: es => if String.eqb n name then Some child else entry_named name es
  end.

Fixpoint descend (n : node) (names : list string) : option node :=
  match names with
  | [] => Some n
  | name :: rest =>
      match n with
      | Dir entries =>
          match entry_named name entries with
          | Some child => descend child rest
          | None => None
          end
      | File _ => None
      end
  end.

(** What [os.path.join(dir, file)] names in the tree of [dir]. *)
Definition resolve (dir : node) (file : string) : option node :=
  descend dir (components file).

(** [os.path.exists]: false for a missing path and for a broken link. *)
Definition os_path_exists (dir : node) (file : string) : bool :=
  match resolve dir file with
  | None | Some (File Dangling) => false
  | Some _ => true
  end.

(** The two errors of file access; the path in the message is the one
    relative to the tree. *)
Definition FileNotFoundError (path : string) : exn :=
  Exn "FileNotFoundError" ("[Errno 2] No such file or directory: '" +:+ path +:+ "'").
Definition PermissionError (path : string) : exn :=
  Exn "PermissionError" ("[Errno 13] Permission denied: '" +:+ path +:+ "'").

(** [os.stat]: the type and size of what the path names. *)
Inductive signature : Type :=
| S_IFREG (size : nat)
| S_OTHER.

Definition os_stat (dir : node) (file : string) : result signature :=
  match resolve dir file with
  | None | Some (File Dangling) => Raise (FileNotFoundError file)
  | Some (File (Regular data _)) => Return (S_IFREG (length data))
  | Some _ => Return S_OTHER
  end.

(** [open(path, "rb")] and reading to the end. *)
Definition read_bytes (dir : node) (file : string) : result (list Byte.byte) :=
  match resolve dir file with
  | Some (File (Regular data true)) => Return data
  | Some (File (Regular _ false)) => Raise (PermissionError file)
  | _ => Raise (FileNotFoundError file)
  end.

(** [filecmp.cmp(f1, f2, shallow=False)] of the standard library: false
    unless both are regular files of the same size, then the comparison of
    their contents, the first file being opened first.  (Its cache of
    earlier outcomes plays no part: a run compares each pair of paths
    once.) *)
Definition filecmp_cmp (dir1 dir2 : node) (file : string) : result bool :=
  bind (os_stat dir1 file) (λ s1,
  bind (os_stat dir2 file) (λ s2,
  match s1, s2 with
  | S_IFREG n1, S_IFREG n2 =>
      if negb (n1 =? n2) then Return false
      else
        bind (read_bytes dir1 file) (λ b1,
        bind (read_bytes dir2 file) (λ b2,
        Return (bool_decide (b1 = b2))))
  | _, _ => Return false
  end)).

(** *** compare_directories *)

Record results : Type := {
  added : list string;
  deleted : list string;
  modified : list string;
  identical : list string;
  errors : list (string * string)
}.

(** The order of [sorted] on pairs of strings. *)
Definition pair_leb (a b : string * string) : bool :=
  if String.eqb a.1 b.1 then String.leb a.2 b.2 else String.leb a.1 b.1.
Definition pair_le (a b : string * string) : Prop := pair_leb a b.
Global Instance pair_le_dec : RelDecision pair_le.
Proof. intros a b. unfold pair_le. apply _. Defined.

Definition sorted (l : list string) : list string := merge_sort String.le l.
Definition sorted_pairs (l : list (string * string)) : list (string * string) :=
  merge_sort pair_le l.

(** The three lists the loop over the common files appends to. *)
Definition buckets : Type :=
  (list string * list string * list (string * string))%type.

(** One round of the loop of lines 44 to 59. *)
Definition compare_file (dir1 dir2 : node) (acc : buckets) (file : string)
  : buckets :=
  let '(modified, identical, error_files) := acc in
  let body : result buckets :=
    if os_path_exists dir1 file && os_path_exists dir2 file then
      bind (filecmp_cmp dir1 dir2 file) (λ same,
        if same then Return (modified, identical ++ [file], error_files)
        else Return (modified ++ [file], identical, error_files))
    else
      Return (modified, identical,
              error_files ++ [(file, "File exists in listing but not accessible")])
  in
  match body with
  | Return acc' => acc'
  | Raise e => (modified, identical, error_files ++ [(file, str_of_exn e)])
  end.

Definition compare_directories (dir1 dir2 : node)
    (extensions : option (list string)) : results :=
  let files1 : gset string := list_to_set (get_file_list dir1 extensions) in
  let files2 : gset string := list_to_set (get_file_list dir2 extensions) in
  let added := files2 ∖ files1 in
  let deleted := files1 ∖ files2 in
  let common := files1 ∩ files2 in
  let '(modified, identical, error_files) :=
    foldl (compare_file dir1 dir2) ([], [], []) (elements common) in
  {| added := sorted (elements added);
     deleted := sorted (elements deleted);
     modified := sorted modified;
     identical := sorted identical;
     errors := sorted_pairs error_files |}.

(** *** show_file_diff and generate_html_diff *)

(** What the two functions call: reading a text file as lines
    ([open(..., errors="replace")] and [readlines()]), and the two diff
    renderers of [difflib].  Each may raise. *)
Record diff_env : Type := {
  readlines : string → result (list string);
  unified_diff :
    list string → list string → string → string → result (list string);
  make_file :
    list string → list string → string → string → result string
}.

(** [sep.join(l)] *)
Fixpoint join (sep : string) (l : list string) : string :=
  match l with
  | [] => EmptyString
  | [x] => x
  | x :: rest => x +:+ sep +:+ join sep rest
  end.

Definition show_file_diff (env : diff_env) (file1 file2 : string)
  : result string :=
  try_except
    (bind (readlines env file1) (λ content1,
     bind (readlines env file2) (λ content2,
     bind (unified_diff env content1 content2 file1 file2) (λ diff,
     Return (join (String LF EmptyString) diff)))))
    (λ e, Return ("Error generating diff: " +:+ str_of_exn e)).

(** [html.escape(s)], with quotes. *)
Definition html_escape (s : string) : string :=
  let s := replace s "&" "&amp;" in
  let s := replace s "<" "&lt;" in
  let s := replace s ">" "&gt;" in
  let s := replace s DQUOTE "&quot;" in
  replace s "'" "&#x27;".

(** The style sheet put in place of [</style>]. *)
Definition diff_style : string :=
  "
            body {
                font-family: -apple-system, BlinkMacSystemFont, "
  +:+ DQUOTE +:+ "Segoe UI"
  +:+ DQUOTE +:+ ", Helvetica, Arial, sans-serif;
                font-size: 14px;
                line-height: 1.5;
                color: #24292e;
                background-color: #fff;
            }
            .diff-header {
                padding: 10px 16px;
                background-color: #f6f8fa;
                border-bottom: 1px solid #d1d5da;
                font-weight: 600;
                position: sticky;
                top: 0;
                z-index: 100;
                box-shadow: 0 1px 2px rgba(0,0,0,0.075);
            }
            .diff-container {
                margin-bottom: 30px;
                border: 1px solid #e1e4e8;
                border-radius: 6px;
                overflow: hidden;
            }
            table.diff {
                width: 100%;
                font-family: SFMono-Regular, Consolas, "
  +:+ DQUOTE +:+ "Liberation Mono"
  +:+ DQUOTE +:+ ", Menlo, monospace;
                font-size: 12px;
                border-collapse: collapse;
                table-layout: fixed;
            }
            .diff tbody {
                font-family: SFMono-Regular, Consolas, "
  +:+ DQUOTE +:+ "Liberation Mono"
  +:+ DQUOTE +:+ ", Menlo, monospace;
            }
            .diff_header {
                background-color: #f6f8fa !important;
                padding: 4px 10px !important;
                border-right: 1px solid #e1e4e8;
                color: #586069;
                text-align: right;
                vertical-align: top;
                font-size: 12px;
            }
            td {
                padding: 0 10px;
                vertical-align: top;
                white-space: pre-wrap;
                word-wrap: break-word;
                border-right: 1px solid #eaecef;
                line-height: 20px;
            }
            .diff_add {
                background-color: #e6ffec !important;
                border-color: #34d058;
            }
            .diff_chg {
                background-color: #fff5b1 !important;
                border-color: #f9c513;
            }
            .diff_sub {
                background-color: #ffeef0 !important;
                border-color: #d73a49;
            }
            tr.diff_add {
                background-color: #e6ffec;
            }
            tr.diff_chg {
                background-color: #fff5b1;
            }
            tr.diff_sub {
                background-color: #ffeef0;
            }
            tr:hover {
                background-color: rgba(0,0,0,0.02);
            }
            .diff td:nth-of-type(3), .diff td:nth-of-type(4) {
                width: 45%;
            }
            </style>".

Definition diff_header (file_path : string) : string :=
  "<body>
            <div class="
  +:+ DQUOTE +:+ "diff-header"
  +:+ DQUOTE +:+ ">
                <h3>Diff of "
  +:+ html_escape file_path +:+
  "</h3>
            </div>
            <div class="
  +:+ DQUOTE +:+ "diff-container"
  +:+ DQUOTE +:+ ">".

Definition generate_html_diff (env : diff_env) (file1 file2 file_path : string)
  : result string :=
  try_except
    (bind (readlines env file1) (λ content1,
     bind (readlines env file2) (λ content2,
     bind (make_file env content1 content2
             ("Original: " +:+ file1) ("Modified: " +:+ file2)) (λ diff_html,
     let diff_html := replace diff_html "</style>" diff_style in
     let diff_html := replace diff_html "<body>" (diff_header file_path) in
     let diff_html := replace diff_html "</body>" "</div></body>" in
     Return diff_html))))
    (λ e, Return ("<html><body><h2>Error generating diff</h2><p>"
                  +:+ html_escape (str_of_exn e) +:+ "</p></body></html>")).

(** *** generate_html_report: the diff files *)

(** [path[:path.rfind("/") + 1]] *)
Fixpoint head_of (path : string) : string :=
  match path with
  | EmptyString => EmptyString
  | String c p' =>
      match head_of p' with
      | EmptyString => if Ascii.eqb c "/" then "/" else EmptyString
      | h => String c h
      end
  end.

Fixpoint all_slashes (s : string) : bool :=
  match s with
  | EmptyString => true
  | String c s' => Ascii.eqb c "/" && all_slashes s'
  end.

(** [s.rstrip("/")] *)
Fixpoint rstrip_slashes (s : string) : string :=
  match s with
  | EmptyString => EmptyString
  | String c s' =>
      match rstrip_slashes s' with
      | EmptyString => if Ascii.eqb c "/" then EmptyString else String c EmptyString
      | r => String c r
      end
  end.

(** [posixpath.dirname] *)
Definition os_path_dirname (path : string) : string :=
  let head := head_of path in
  if negb (String.eqb head "") && negb (all_slashes head)
  then rstrip_slashes head else head.

(** Line 241. *)
Definition file_id_of (file : string) : string :=
  replace (replace (replace (replace file "/" "_") "\" "_") "." "_") " " "_".

(** Lines 230 to 234; [None] and the empty string are falsy. *)
Definition diff_dir_of (output_path : option string) : string :=
  match output_path with
  | None => "diffs"
  | Some p =>
      if String.eqb p "" then "diffs"
      else
        let output_dir := os_path_dirname p in
        os_path_join output_dir "diffs"
  end.

(** Line 255: the diff file relative to the directory of the report.  The
    diff file is [diff_dir/name] and [diff_dir] is that directory joined
    with [diffs], so [os.path.relpath] gives [diffs/name]. *)
Definition diff_link (file_id : string) : string :=
  os_path_join "diffs" (file_id +:+ ".html").

(** One round of the loop of lines 240 to 255: the files written so far
    and the dict [diff_files]. *)
Definition write_diff (env : diff_env) (dir1 dir2 diff_dir : string)
    (st : gmap string string * gmap string string) (file : string)
  : result (gmap string string * gmap string string) :=
  let '(fs, diff_files) := st in
  let file_id := file_id_of file in
  let diff_file := os_path_join diff_dir (file_id +:+ ".html") in
  bind (generate_html_diff env (os_path_join dir1 file)
          (os_path_join dir2 file) file) (λ diff_html,
  let fs := write_file diff_file diff_html fs in
  Return (fs, <[file := diff_link file_id]> diff_files)).

Fixpoint write_diffs (env : diff_env) (dir1 dir2 diff_dir : string)
    (st : gmap string string * gmap string string) (files : list string)
  : result (gmap string string * gmap string string) :=
  match files with
  | [] => Return st
  | file :: rest =>
      bind (write_diff env dir1 dir2 diff_dir st file)
           (λ st', write_diffs env dir1 dir2 diff_dir st' rest)
  end.

(** The first part of [generate_html_report], up to line 255. *)
Definition generate_diff_files (env : diff_env) (res : results)
    (dir1 dir2 : string) (output_path : option string)
    (fs : gmap string string)
  : result (gmap string string * gmap string string) :=
  let diff_dir := diff_dir_of output_path in
  write_diffs env dir1 dir2 diff_dir (fs, ∅) (modified res).

(** Lines 451 to 456: the link and the label of every modified file in the
    report. *)
Definition modified_links (res : results) (diff_files : gmap string string)
  : list (string * string) :=
  (λ file, (html_escape (diff_files !!! file), html_escape file))
    <$> modified res.

(** [s.split(sep)] for a separator of one character. *)
Fixpoint str_split (sep : ascii) (s : string) : list string :=
  match s with
  | EmptyString => [EmptyString]
  | String c s' =>
      if Ascii.eqb c sep then EmptyString :: str_split sep s'
      else match str_split sep s' with
           | [] => [String c EmptyString]
           | x :: xs => String c x :: xs
           end
  end.

(** Lines 556 to 560 of [main]: the value of [--extensions] made into the
    filter list; an absent or empty value is no filter. *)
Definition parse_extensions (arg : option string) : option (list string) :=
  match arg with
  | None => None
  | Some a =>
      if String.eqb a "" then None
      else
        let extensions := str_split "," a in
        Some ((λ ext, if startswith ext "." then ext else "." +:+ ext)
                <$> extensions)
  end.

(** *** main: the text report *)

(** [str(n)] of a length. *)
Definition str_of_nat (n : nat) : string :=
  NilZero.string_of_uint (Nat.to_uint n).

(** What the loop over the modified files appends for one file; with
    [--show-diff] the diff follows, every line indented. *)
Definition modified_lines (env : diff_env) (dir1 dir2 : string)
    (show_diff : bool) (file : string) : list string :=
  let nl := String LF EmptyString in
  ("  * " +:+ file)
  :: (if show_diff then
        (nl +:+ "  Differences:")
        :: (let file1_path := os_path_join dir1 file in
            let file2_path := os_path_join dir2 file in
            match show_file_diff env file1_path file2_path with
            | Return diff =>
                let diff_lines := str_split LF diff in
                let indented_diff := (λ line, "    " +:+ line) <$> diff_lines in
                [join nl indented_diff; ""]
            | Raise e => ["    Error generating diff: " +:+ str_of_exn e]
            end)
      else []).

(** Lines 587 to 628 of [main]: the summary that is printed or saved.
    [extensions] is the filter list made from [--extensions]. *)
Definition text_report (env : diff_env) (dir1 dir2 : string)
    (extensions : option (list string)) (show_diff : bool) (res : results)
  : string :=
  let nl := String LF EmptyString in
  let output :=
    ["Comparing: " +:+ dir1 +:+ " and " +:+ dir2]
    ++ match extensions with
       | Some (ext :: exts) =>
           ["File extensions filter: " +:+ join ", " (ext :: exts)]
       | _ => []
       end
    ++ [""]
    ++ ["Added files (" +:+ str_of_nat (length (added res)) +:+ "):"]
    ++ ((λ file, "  + " +:+ file) <$> added res)
    ++ [nl +:+ "Deleted files (" +:+ str_of_nat (length (deleted res)) +:+ "):"]
    ++ ((λ file, "  - " +:+ file) <$> deleted res)
    ++ [nl +:+ "Modified files (" +:+ str_of_nat (length (modified res)) +:+ "):"]
    ++ (modified res ≫= modified_lines env dir1 dir2 show_diff)
    ++ [nl +:+ "Identical files: " +:+ str_of_nat (length (identical res))]
    ++ match errors res with
       | [] => []
       | _ :: _ =>
           (nl +:+ "Files with errors (" +:+ str_of_nat (length (errors res))
            +:+ "):")
           :: ((λ '(file, error), "  ! " +:+ file +:+ ": " +:+ error)
                 <$> errors res)
       end in
  let summary := join nl output in
  summary.

End Dd.

(** * Specification

    The notions the properties below are stated with. *)
Section specification.
Import Py Yt Dd.

(** Every character of [s] passes the test [p]. *)
Fixpoint all_chars (p : ascii → bool) (s : string) : bool :=
  match s with
  | EmptyString => true
  | String c s' => p c && all_chars p s'
  end.

(** An identifier: eleven characters of the class. *)
Definition id_token (tok : string) : Prop :=
  String.length tok = 11 ∧ all_chars is_id_char tok = true.

(** What stands before the identifier. *)
Definition lead (l : string) : Prop := l = "v=" ∨ l = "/".

(** What the specification allows after the identifier: the end of the
    string or one of the three delimiters. *)
Definition stated_end (post : string) : Prop :=
  post = "" ∨ ∃ c r, post = String c r ∧ (c = "?" ∨ c = "&" ∨ c = "#")%char.

(** What the pattern allows: the same, or a newline that ends the string. *)
Definition pattern_end (post : string) : Prop :=
  stated_end post ∨ post = NL.

(** [tok] stands in [url] after [i] characters and a lead, followed by an
    admissible end. *)
Definition token_at (fin : string → Prop) (url : string) (i : nat)
    (tok : string) : Prop :=
  ∃ pre l post,
    url = pre +:+ l +:+ tok +:+ post ∧ String.length pre = i
    ∧ lead l ∧ id_token tok ∧ fin post.

(** [tok] stands at the first place of [url] where the pattern matches. *)
Definition leftmost_token (url tok : string) : Prop :=
  ∃ i, token_at pattern_end url i tok
       ∧ ∀ j tok', j < i → ¬ token_at pattern_end url j tok'.

(** The walk of [dir] lists the file name [file] in the directory [root]. *)
Definition walked (dir : node) (root file : string) : Prop :=
  ∃ dirs files, (root, dirs, files) ∈ os_walk "" dir ∧ file ∈ files.

(** [file] ends with one of the strings of [exts], character for
    character. *)
Definition ends_with_one_of (file : string) (exts : list string) : Prop :=
  ∃ ext pre, ext ∈ exts ∧ file = pre +:+ ext.

(** The bucket a common file goes to. *)
Inductive verdict : Type :=
| Identical
| Modified
| Failed (msg : string).

Global Instance verdict_eq_dec : EqDecision verdict.
Proof. solve_decision. Defined.

(** The verdict on a common file: lines 48 to 59 read as a function. *)
Definition verdict_of (dir1 dir2 : node) (file : string) : verdict :=
  if os_path_exists dir1 file && os_path_exists dir2 file then
    match filecmp_cmp dir1 dir2 file with
    | Return true => Identical
    | Return false => Modified
    | Raise e => Failed (str_of_exn e)
    end
  else Failed "File exists in listing but not accessible".

(** The entry of [errors] for a file, if it has one. *)
Definition failure (dir1 dir2 : node) (file : string) : option (string * string) :=
  match verdict_of dir1 dir2 file with
  | Failed msg => Some (file, msg)
  | _ => None
  end.

(** Reading one of the two files, or rendering the diff of their lines
    with [render], raises [e]. *)
Definition diff_fails {A} (env : diff_env)
    (render : list string → list string → result A)
    (file1 file2 : string) (e : exn) : Prop :=
  readlines env file1 = Raise e
  ∨ (∃ content1, readlines env file1 = Return content1
                 ∧ readlines env file2 = Raise e)
  ∨ (∃ content1 content2,
       readlines env file1 = Return content1
       ∧ readlines env file2 = Return content2
       ∧ render content1 content2 = Raise e).

(** The page [generate_html_diff] returns for the exception [e]. *)
Definition error_page (e : exn) : string :=
  "<html><body><h2>Error generating diff</h2><p>"
  +:+ html_escape (str_of_exn e) +:+ "</p></body></html>".

(** [f] applied to every character of [s]. *)
Fixpoint map_chars (f : ascii → ascii) (s : string) : string :=
  match s with
  | EmptyString => EmptyString
  | String c s' => String (f c) (map_chars f s')
  end.

(** What line 241 does to one character: the slash, the backslash, the
    dot and the space become an underscore. *)
Definition underscored (c : ascii) : ascii :=
  if Ascii.eqb c "/" || Ascii.eqb c "\" || Ascii.eqb c "." || Ascii.eqb c " "
  then "_"%char else c.

(** The page [generate_html_diff] returns ([generate_html_diff_total]). *)
Definition diff_page (env : diff_env) (dir1 dir2 file : string) : string :=
  match generate_html_diff env (os_path_join dir1 file)
          (os_path_join dir2 file) file with
  | Return h => h
  | Raise _ => EmptyString
  end.

(** The path of the diff file of [file] (line 242). *)
Definition diff_file_of (diff_dir file : string) : string :=
  os_path_join diff_dir (file_id_of file +:+ ".html").

(** The name the specification describes: separators and dots become
    underscores and every other character stays. *)
Definition stated_underscored (c : ascii) : ascii :=
  if Ascii.eqb c "/" || Ascii.eqb c "\" || Ascii.eqb c "."
  then "_"%char else c.

(** [s[:n]] *)
Fixpoint take (n : nat) (s : string) : string :=
  match n, s with
  | S n', String c s' => String c (take n' s')
  | _, _ => EmptyString
  end.

(** The title the specification describes: the content of the tag without
    the suffix, nothing else changed. *)
Definition without_suffix (s suf : string) : string :=
  if endswith s suf then take (String.length s - String.length suf) s else s.

(** A network on which pytube fails and the watch page is [html]. *)
Definition page (html : string) : web :=
  {| pytube_title := λ _, Raise (Exn "RegexMatchError" "no match");
     requests_get := λ _, Return {| raise_for_status := Return tt; text := html |} |}.

(** [s] holds no newline. *)
Definition no_newline (s : string) : Prop :=
  all_chars (λ c, negb (Ascii.eqb c LF)) s = true.

(** [x] is neither an infinity nor a NaN. *)
Definition is_finite (x : float) : Prop :=
  match x with Finite _ _ _ => True | _ => False end.

(** The value of a start rounded to two decimals, in hundredths. *)
Definition rounded_start (e : entry) : Z := default 0%Z (round_2 (get_start e)).

(** A decimal digit. *)
Definition is_digit (c : ascii) : bool :=
  match digit_val c with Some _ => true | None => false end.

(** Neither a closing bracket nor a newline. *)
Definition plain (c : ascii) : bool :=
  negb (Ascii.eqb c "]") && negb (Ascii.eqb c LF).

(** The entry line without its final newline. *)
Definition entry_row (e : entry) : string :=
  "[" +:+ format_2f (get_start e) +:+ "] " +:+ get_text e.

(** A file name: not empty, no slash in it. *)
Definition valid_name (name : string) : Prop :=
  name ≠ "" ∧ all_chars (λ c, negb (Ascii.eqb c "/")) name = true.

(** A tree as a file system holds it: valid names, no name twice in a
    directory. *)
#[warnings="-register-all"]
Inductive well_formed : node → Prop :=
| wf_File k : well_formed (File k)
| wf_Dir entries :
    NoDup entries.*1 →
    Forall (λ e, valid_name e.1 ∧ well_formed e.2) entries →
    well_formed (Dir entries).

(** Every file of the tree is a readable regular file. *)
Fixpoint all_readable (n : node) : bool :=
  match n with
  | File (Regular _ true) => true
  | File _ => false
  | Dir entries =>
      (fix go (es : list (string * node)) :=
         match es with
         | [] => true
         | (_, child) :: es' => all_readable child && go es'
         end) entries
  end.

Global Instance pair_le_total : Total pair_le.
Proof.
  intros [a1 a2] [b1 b2]. unfold pair_le, pair_leb. simpl.
  rewrite (String.eqb_sym b1 a1).
  destruct (String.eqb a1 b1).
  - destruct (String.leb_total a2 b2) as [-> | ->]; simpl; auto.
  - destruct (String.leb_total a1 b1) as [-> | ->]; simpl; auto.
Qed.

(** The verdict does not depend on the order of the two trees, up to the
    message of a failure. *)
Definition same_bucket (v w : verdict) : Prop :=
  match v, w with
  | Identical, Identical | Modified, Modified | Failed _, Failed _ => True
  | _, _ => False
  end.

(** [s] with every character replaced by the string [f] gives for it. *)
Fixpoint expand (f : ascii → string) (s : string) : string :=
  match s with
  | EmptyString => EmptyString
  | String c s' => f c +:+ expand f s'
  end.

(** What [html.escape] writes for one character. *)
Definition escaped (c : ascii) : string :=
  if Ascii.eqb c "&" then "&amp;"
  else if Ascii.eqb c "<" then "&lt;"
  else if Ascii.eqb c ">" then "&gt;"
  else if Ascii.eqb c "034" then "&quot;"
  else if Ascii.eqb c "'" then "&#x27;"
  else String c EmptyString.

(** A character that opens or closes markup or an attribute value. *)
Definition is_markup (c : ascii) : bool :=
  Ascii.eqb c "<" || Ascii.eqb c ">" || Ascii.eqb c "034" || Ascii.eqb c "'".

(** The two entries are told apart by [os.stat] alone: one of them is not
    a regular file, or they are regular files of different sizes. *)
Definition differ_by_stat (k1 k2 : fkind) : Prop :=
  match k1, k2 with
  | Dangling, _ | _, Dangling => False
  | Regular d1 _, Regular d2 _ => length d1 ≠ length d2
  | _, _ => True
  end.

End specification.

(** * Properties *)

(** stdpp keeps [String.append] folded; the proofs below compute with it. *)
#[local] Arguments String.append !s1 s2 : simpl nomatch.

(** Concrete trees are well formed by inspection. *)
Ltac solve_well_formed :=
  repeat first
    [ apply wf_File | apply wf_Dir | apply Forall_nil_2 | apply Forall_cons_2
    | apply NoDup_nil_2 | apply NoDup_cons_2
    | split; [discriminate | reflexivity]
    | split
    | by apply (bool_decide_unpack _) ].

(** ** Strings *)
Section strings.
Import Py.

Lemma all_chars_app p s1 s2 :
  all_chars p (s1 +:+ s2) = all_chars p s1 && all_chars p s2.
Proof.
  induction s1 as [|c s1 IH]; simpl; [done|]. by rewrite IH, andb_assoc.
Qed.

Lemma str_app_nil_r s : s +:+ "" = s.
Proof. induction s; simpl; congruence. Qed.

Lemma str_app_assoc s1 s2 s3 : (s1 +:+ s2) +:+ s3 = s1 +:+ (s2 +:+ s3).
Proof. induction s1; simpl; congruence. Qed.

Lemma str_length_app s1 s2 :
  String.length (s1 +:+ s2) = String.length s1 + String.length s2.
Proof. induction s1; simpl; congruence. Qed.

Lemma str_length_zero s : String.length s = 0 → s = "".
Proof. by destruct s. Qed.

Lemma ascii_eqb_true c d : Ascii.eqb c d = true ↔ c = d.
Proof. apply Ascii.eqb_eq. Qed.

Lemma startswith_spec s pre :
  startswith s pre = true ↔ ∃ rest, s = pre +:+ rest.
Proof.
  revert s. induction pre as [|p pre IH]; intros s; simpl.
  - split; [by exists s | done].
  - destruct s as [|c s].
    + split; [done | intros [rest [=]]].
    + destruct (Ascii.eqb_spec c p) as [->|Hne].
      * rewrite IH. split; intros [rest Hr]; exists rest; congruence.
      * split; [done | intros [rest [=]]; congruence].
Qed.

Lemma startswith_app pre rest : startswith (pre +:+ rest) pre = true.
Proof. apply startswith_spec. by exists rest. Qed.

Lemma drop_app pre rest : drop (String.length pre) (pre +:+ rest) = rest.
Proof. induction pre; simpl; [by destruct rest | done]. Qed.

Lemma endswith_unfold s suf :
  endswith s suf =
  String.eqb s suf
  || match s with EmptyString => false | String _ s' => endswith s' suf end.
Proof. by destruct s. Qed.

Lemma endswith_spec s suf :
  endswith s suf = true ↔ ∃ pre, s = pre +:+ suf.
Proof.
  induction s as [|c s IH]; rewrite endswith_unfold.
  - destruct (String.eqb_spec "" suf) as [<-|Hne]; simpl.
    + split; [by exists "" | done].
    + split; [done | intros [pre Hp]]. destruct pre; simpl in Hp; congruence.
  - destruct (String.eqb_spec (String c s) suf) as [<-|Hne]; simpl.
    + split; [by exists "" | done].
    + rewrite IH. split.
      * intros [pre ->]. by exists (String c pre).
      * intros [pre Hp]. destruct pre as [|d pre]; simpl in Hp; [congruence|].
        exists pre. congruence.
Qed.

End strings.

(** ** extract_video_id *)
Section extract_video_id.
Import Py Yt.

Lemma match_group_spec n s tok rest :
  match_group n s = Some (tok, rest)
  ↔ s = tok +:+ rest ∧ String.length tok = n ∧ all_chars is_id_char tok = true.
Proof.
  revert s tok rest. induction n as [|n IH]; intros s tok rest; simpl.
  - split.
    + by intros [= <- <-].
    + intros (-> & Hl & _). by rewrite (str_length_zero _ Hl).
  - destruct s as [|c s].
    + split; [done|]. intros (Hs & Hl & _). by destruct tok.
    + split.
      * destruct (is_id_char c) eqn:Hc; [|done].
        destruct (match_group n s) as [[t r]|] eqn:Hm; [|done].
        apply IH in Hm as (-> & <- & Ht).
        intros [= <- <-]. simpl. by rewrite Hc, Ht.
      * intros (Hs & Hl & Ha). destruct tok as [|d tok]; [done|].
        simpl in *. injection Hs as <- Hs. injection Hl as Hl.
        apply andb_true_iff in Ha as [-> Ha].
        assert (match_group n s = Some (tok, rest)) as -> by (by apply IH).
        done.
Qed.

Lemma match_delim_spec s : match_delim s = true ↔ pattern_end s.
Proof.
  unfold pattern_end, stated_end, NL. destruct s as [|c r]; simpl.
  - split; [by left; left | done].
  - rewrite !orb_true_iff, andb_true_iff, !ascii_eqb_true, String.eqb_eq.
    split.
    + intros [[[H|H]|H]|[H1 H2]]; subst;
        [left; right; do 2 eexists; split; [done | tauto] ..|by right].
    + intros [[|(c' & r' & [= <- <-] & [H|[H|H]])]|[= -> ->]]; [done|tauto ..].
Qed.

Lemma match_after_spec l s tok :
  match_after l s = Some tok
  ↔ ∃ post, s = l +:+ tok +:+ post ∧ id_token tok ∧ pattern_end post.
Proof.
  unfold match_after, id_token. split.
  - destruct (startswith s l) eqn:Hl; [|done].
    apply startswith_spec in Hl as [rest ->]. rewrite drop_app.
    destruct (match_group 11 rest) as [[t post]|] eqn:Hm; [|done].
    destruct (match_delim post) eqn:Hd; [|done]. intros [= ->].
    apply match_group_spec in Hm as (-> & Hlen & Ha).
    apply match_delim_spec in Hd. by exists post.
  - intros (post & -> & [Hlen Ha] & Hd).
    rewrite startswith_app, drop_app.
    assert (match_group 11 (tok +:+ post) = Some (tok, post)) as ->
      by (by apply match_group_spec).
    apply match_delim_spec in Hd. by rewrite Hd.
Qed.

Lemma match_here_spec s tok :
  match_here s = Some tok ↔ token_at pattern_end s 0 tok.
Proof.
  unfold match_here, token_at. split.
  - destruct (match_after "v=" s) as [t|] eqn:Hv.
    + intros [= ->]. apply match_after_spec in Hv as (post & -> & Ht & Hd).
      exists "", "v=", post. unfold lead. auto.
    + intros Hs. apply match_after_spec in Hs as (post & -> & Ht & Hd).
      exists "", "/", post. unfold lead. auto.
  - intros (pre & l & post & -> & Hpre & [->| ->] & Ht & Hd);
      apply str_length_zero in Hpre as ->; simpl.
    + assert (match_after "v=" ("v=" +:+ tok +:+ post) = Some tok) as Hm
        by (apply match_after_spec; eauto).
      simpl in Hm. by rewrite Hm.
    + apply (match_after_spec "/"). eauto.
Qed.

Lemma token_at_nil fin i tok : ¬ token_at fin "" i tok.
Proof.
  intros (pre & l & post & Hs & _ & Hl & _).
  destruct pre; [|done]. by destruct Hl as [-> | ->].
Qed.

Lemma token_at_cons fin c s i tok :
  token_at fin (String c s) (S i) tok ↔ token_at fin s i tok.
Proof.
  split.
  - intros (pre & l & post & Hs & Hpre & H). destruct pre as [|d pre]; [done|].
    simpl in *. injection Hs as <- ->. injection Hpre as <-. by exists pre, l, post.
  - intros (pre & l & post & -> & <- & H). by exists (String c pre), l, post.
Qed.

Lemma re_search_id_unfold s :
  re_search_id s =
  match match_here s with
  | Some tok => Some tok
  | None => match s with
            | EmptyString => None
            | String _ s' => re_search_id s'
            end
  end.
Proof. by destruct s. Qed.

Lemma re_search_id_spec s tok :
  re_search_id s = Some tok ↔ leftmost_token s tok.
Proof.
  unfold leftmost_token. induction s as [|c s IH]; rewrite re_search_id_unfold.
  - destruct (match_here "") as [t|] eqn:Hh.
    + apply match_here_spec in Hh. by apply token_at_nil in Hh.
    + split; [done|]. intros (i & Hi & _). by apply token_at_nil in Hi.
  - destruct (match_here (String c s)) as [t|] eqn:Hh.
    + pose proof Hh as Ht. apply match_here_spec in Ht. split.
      * intros [= <-]. exists 0. split; [done|]. intros; lia.
      * intros ([|i] & Hi & Hmin).
        -- apply match_here_spec in Hi. congruence.
        -- destruct (Hmin 0 t); [lia | done].
    + rewrite IH. split.
      * intros (i & Hi & Hmin). exists (S i). split; [by apply token_at_cons|].
        intros [|j] tok' Hj Htok.
        -- apply match_here_spec in Htok. congruence.
        -- apply token_at_cons in Htok. apply (Hmin j tok'); [lia | done].
      * intros ([|i] & Hi & Hmin).
        -- apply match_here_spec in Hi. congruence.
        -- exists i. split; [by apply token_at_cons in Hi|].
           intros j tok' Hj Htok. apply (Hmin (S j) tok'); [lia|].
           by apply token_at_cons.
Qed.

Lemma re_search_id_none s :
  re_search_id s = None ↔ ∀ i tok, ¬ token_at pattern_end s i tok.
Proof.
  split.
  - intros Hn i. induction (lt_wf i) as [i _ IHi]. intros tok Hi.
    assert (leftmost_token s tok) as Hl.
    { exists i. split; [done|]. intros j tok' Hj. by apply IHi. }
    apply re_search_id_spec in Hl. congruence.
  - intros Hno. destruct (re_search_id s) as [tok|] eqn:Hs; [|done].
    apply re_search_id_spec in Hs as (i & Hi & _). by apply Hno in Hi.
Qed.

(** Where the URL does not end with a newline (as in [main], which strips
    it), the pattern accepts exactly the ends the specification names. *)
Lemma token_at_stated url i tok :
  endswith url NL = false →
  token_at pattern_end url i tok ↔ token_at stated_end url i tok.
Proof.
  intros Hnl. split.
  - intros (pre & l & post & -> & Hpre & Hl & Ht & [Hd| ->]).
    + by exists pre, l, post.
    + assert (endswith (pre +:+ l +:+ tok +:+ NL) NL = true) as Hends.
      { apply endswith_spec. exists (pre +:+ l +:+ tok). by rewrite !str_app_assoc. }
      congruence.
  - intros (pre & l & post & -> & Hpre & Hl & Ht & Hd).
    exists pre, l, post. unfold pattern_end. split_and!; auto.
Qed.

(** C2, as the code has it: [extract_video_id] returns the identifier of
    the leftmost place of the URL where [v=] or [/], eleven characters of
    [[0-9A-Za-z_-]] and then [?], [&], [#], the end of the string or a
    final newline stand, and raises [ValueError] exactly when there is no
    such place.  For [https://youtu.be/dQw4w9WgXcQ?si=abc] it returns
    [dQw4w9WgXcQ]. *)
Theorem extract_video_id_leftmost url :
  (∀ tok, extract_video_id url = Return tok ↔ leftmost_token url tok)
  ∧ (extract_video_id url
       = Raise (ValueError ("Invalid YouTube URL or missing video ID: " +:+ url))
     ↔ ∀ i tok, ¬ token_at pattern_end url i tok)
  ∧ extract_video_id "https://youtu.be/dQw4w9WgXcQ?si=abc" = Return "dQw4w9WgXcQ".
Proof.
  unfold extract_video_id. split; [|split; [|done]].
  - intros tok. rewrite <- re_search_id_spec.
    destruct (re_search_id url); split; congruence.
  - rewrite <- re_search_id_none.
    destruct (re_search_id url); split; congruence.
Qed.

(** C2 as stated fails twice.  Of two places of a URL that qualify only
    the left one is returned; and a URL whose identifier is followed by a
    final newline, which is none of the ends the statement names, is
    accepted. *)
Lemma extract_video_id_stated_counterexample :
  token_at stated_end "/AAAAAAAAAAA?t=/BBBBBBBBBBB" 15 "BBBBBBBBBBB"
  ∧ extract_video_id "/AAAAAAAAAAA?t=/BBBBBBBBBBB" = Return "AAAAAAAAAAA"
  ∧ (∀ i tok, ¬ token_at stated_end ("/dQw4w9WgXcQ" +:+ NL) i tok)
  ∧ extract_video_id ("/dQw4w9WgXcQ" +:+ NL) = Return "dQw4w9WgXcQ".
Proof.
  split; [|split; [done|split; [|done]]].
  - exists "/AAAAAAAAAAA?t=", "/", "". unfold lead, id_token, stated_end.
    split_and!; auto.
  - intros i tok (pre & l & post & Hs & _ & Hl & [Hlen _] & Hend).
    pose proof (f_equal String.length Hs) as Hn.
    rewrite !str_length_app, Hlen in Hn.
    destruct Hl as [-> | ->]; simpl in Hn.
    + destruct pre; [done | simpl in Hn; lia].
    + destruct pre as [|p [|? ?]], post as [|q [|? ?]]; simpl in Hn; try lia.
      * do 11 (destruct tok as [|? tok]; [simpl in Hlen; lia|]).
        destruct tok; [|simpl in Hlen; lia].
        injection Hs as <- <- <- <- <- <- <- <- <- <- <- <-.
        by destruct Hend as [|(c & r & [= <- <-] & [|[|]])].
      * by injection Hs.
Qed.

End extract_video_id.

(** ** get_file_list *)
Section get_file_list.
Import Py Dd.

Lemma any_endswith_spec file exts :
  any_endswith file exts = true ↔ ends_with_one_of file exts.
Proof.
  unfold any_endswith, ends_with_one_of. rewrite existsb_exists. split.
  - intros (ext & Hin & He). apply endswith_spec in He as [pre ->].
    exists ext, pre. by rewrite list_elem_of_In.
  - intros (ext & pre & Hin & ->). exists ext. rewrite <- list_elem_of_In.
    split; [done|]. apply endswith_spec. by exists pre.
Qed.

Lemma elem_of_get_file_list dir extensions p :
  p ∈ get_file_list dir extensions
  ↔ ∃ root file, walked dir root file ∧ p = os_path_join root file
                 ∧ skipped extensions file = false.
Proof.
  unfold get_file_list, walked. rewrite list_elem_of_bind. split.
  - intros ([[root dirs] files] & Hp & Hw).
    apply list_elem_of_bind in Hp as (file & Hp & Hf).
    destruct (skipped extensions file) eqn:Hs; [by apply elem_of_nil in Hp|].
    apply list_elem_of_singleton in Hp as ->.
    exists root, file. split_and!; [by exists dirs, files | done | done].
  - intros (root & file & (dirs & files & Hw & Hf) & -> & Hs).
    exists (root, dirs, files). split; [|done].
    apply list_elem_of_bind. exists file. split; [|done].
    rewrite Hs. by apply list_elem_of_singleton.
Qed.

(** C5, as the code has it: with a non-empty list of filter strings a file
    is listed if and only if its name ends with one of them; without a
    filter, and with the empty list, every file is listed. *)
Theorem get_file_list_filter dir extensions p :
  p ∈ get_file_list dir extensions
  ↔ ∃ root file, walked dir root file ∧ p = os_path_join root file
                 ∧ match extensions with
                   | None | Some [] => True
                   | Some exts => ends_with_one_of file exts
                   end.
Proof.
  rewrite elem_of_get_file_list.
  assert (∀ file, skipped extensions file = false
                  ↔ match extensions with
                    | None | Some [] => True
                    | Some exts => ends_with_one_of file exts
                    end) as Hskip.
  { intros file. destruct extensions as [[|e exts]|]; simpl; [done| |done].
    rewrite negb_false_iff. apply (any_endswith_spec file (e :: exts)). }
  split; intros (root & file & Hw & Hp & Hs); exists root, file;
    split_and!; try done; by apply Hskip.
Qed.

(** C5 as stated fails for the empty list of filter strings: the file is
    listed although its name ends with none of them. *)
Lemma get_file_list_empty_filter_counterexample :
  walked (Dir [("a.txt", File (Regular [] true))]) "" "a.txt"
  ∧ "a.txt" ∈ get_file_list (Dir [("a.txt", File (Regular [] true))]) (Some [])
  ∧ ¬ ends_with_one_of "a.txt" [].
Proof.
  split_and!.
  - exists [], ["a.txt"]. split; [apply list_elem_of_here | apply list_elem_of_here].
  - apply list_elem_of_here.
  - intros (ext & pre & Hin & _). by apply elem_of_nil in Hin.
Qed.

(** The match is on the exact characters: the case matters, and a filter
    string is no pattern. *)
Example filter_is_exact :
  get_file_list
    (Dir [("a.TXT", File (Regular [] true)); ("b.txt", File (Regular [] true));
          ("ctxt", File (Regular [] true));
          ("src", Dir [("d.txt", File Special); ("e.py", File Dangling)])])
    (Some [".txt"])
  = ["b.txt"; "src/d.txt"].
Proof. reflexivity. Qed.

End get_file_list.

(** ** compare_directories *)
Section compare_directories.
Import Py Dd.

Lemma compare_file_verdict dir1 dir2 m i e file :
  compare_file dir1 dir2 (m, i, e) file =
  match verdict_of dir1 dir2 file with
  | Identical => (m, i ++ [file], e)
  | Modified => (m ++ [file], i, e)
  | Failed msg => (m, i, e ++ [(file, msg)])
  end.
Proof.
  unfold compare_file, verdict_of.
  destruct (os_path_exists dir1 file && os_path_exists dir2 file); [|done].
  by destruct (filecmp_cmp dir1 dir2 file) as [[]|].
Qed.

(** The loop sends every file to the bucket of its verdict, in order. *)
Lemma compare_loop dir1 dir2 m i e l :
  foldl (compare_file dir1 dir2) (m, i, e) l =
  (m ++ filter (λ f, verdict_of dir1 dir2 f = Modified) l,
   i ++ filter (λ f, verdict_of dir1 dir2 f = Identical) l,
   e ++ omap (failure dir1 dir2) l).
Proof.
  revert m i e. induction l as [|f l IH]; intros m i e.
  - rewrite !filter_nil. simpl. by rewrite !app_nil_r.
  - cbn [foldl omap list_omap]. rewrite compare_file_verdict. unfold failure at 1.
    rewrite !filter_cons.
    destruct (verdict_of dir1 dir2 f) eqn:Hv; rewrite IH;
      repeat case_decide; try done; by rewrite <- ?(assoc_L (++)).
Qed.

Lemma elem_of_sorted x l : x ∈ sorted l ↔ x ∈ l.
Proof. unfold sorted. by rewrite merge_sort_Permutation. Qed.

Lemma elem_of_sorted_pairs x l : x ∈ sorted_pairs l ↔ x ∈ l.
Proof. unfold sorted_pairs. by rewrite merge_sort_Permutation. Qed.

Lemma NoDup_sorted l : NoDup (sorted l) ↔ NoDup l.
Proof. unfold sorted. by rewrite merge_sort_Permutation. Qed.

(** The buckets of the result, by the verdicts of the common files. *)
Lemma compare_directories_buckets dir1 dir2 extensions :
  let r := compare_directories dir1 dir2 extensions in
  let files1 : gset string := list_to_set (get_file_list dir1 extensions) in
  let files2 : gset string := list_to_set (get_file_list dir2 extensions) in
  let common := elements (files1 ∩ files2) in
  added r = sorted (elements (files2 ∖ files1))
  ∧ deleted r = sorted (elements (files1 ∖ files2))
  ∧ modified r = sorted (filter (λ f, verdict_of dir1 dir2 f = Modified) common)
  ∧ identical r = sorted (filter (λ f, verdict_of dir1 dir2 f = Identical) common)
  ∧ errors r = sorted_pairs (omap (failure dir1 dir2) common).
Proof.
  intros r files1 files2 common. subst r. unfold compare_directories.
  fold files1 files2. fold common. rewrite compare_loop. simpl. done.
Qed.

Lemma elem_of_modified dir1 dir2 extensions f :
  f ∈ modified (compare_directories dir1 dir2 extensions)
  ↔ f ∈ get_file_list dir1 extensions ∧ f ∈ get_file_list dir2 extensions
    ∧ verdict_of dir1 dir2 f = Modified.
Proof.
  destruct (compare_directories_buckets dir1 dir2 extensions)
    as (_ & _ & -> & _).
  rewrite elem_of_sorted, list_elem_of_filter, elem_of_elements,
    elem_of_intersection, !elem_of_list_to_set. tauto.
Qed.

Lemma elem_of_identical dir1 dir2 extensions f :
  f ∈ identical (compare_directories dir1 dir2 extensions)
  ↔ f ∈ get_file_list dir1 extensions ∧ f ∈ get_file_list dir2 extensions
    ∧ verdict_of dir1 dir2 f = Identical.
Proof.
  destruct (compare_directories_buckets dir1 dir2 extensions)
    as (_ & _ & _ & -> & _).
  rewrite elem_of_sorted, list_elem_of_filter, elem_of_elements,
    elem_of_intersection, !elem_of_list_to_set. tauto.
Qed.

Lemma elem_of_errors dir1 dir2 extensions f msg :
  (f, msg) ∈ errors (compare_directories dir1 dir2 extensions)
  ↔ f ∈ get_file_list dir1 extensions ∧ f ∈ get_file_list dir2 extensions
    ∧ verdict_of dir1 dir2 f = Failed msg.
Proof.
  destruct (compare_directories_buckets dir1 dir2 extensions)
    as (_ & _ & _ & _ & ->).
  rewrite elem_of_sorted_pairs, list_elem_of_omap. unfold failure. split.
  - intros (g & Hg & Hv).
    rewrite elem_of_elements, elem_of_intersection, !elem_of_list_to_set in Hg.
    destruct (verdict_of dir1 dir2 g) eqn:Hvg; try done.
    injection Hv as <- <-. tauto.
  - intros (H1 & H2 & Hv). exists f.
    rewrite Hv, elem_of_elements, elem_of_intersection, !elem_of_list_to_set.
    tauto.
Qed.

Lemma elem_of_error_paths dir1 dir2 extensions f :
  f ∈ (errors (compare_directories dir1 dir2 extensions)).*1
  ↔ f ∈ get_file_list dir1 extensions ∧ f ∈ get_file_list dir2 extensions
    ∧ ∃ msg, verdict_of dir1 dir2 f = Failed msg.
Proof.
  rewrite list_elem_of_fmap. split.
  - intros ([g msg] & -> & Hin). apply elem_of_errors in Hin.
    destruct Hin as (H1 & H2 & Hv). eauto.
  - intros (H1 & H2 & msg & Hv). exists (f, msg). split; [done|].
    by apply elem_of_errors.
Qed.

Lemma NoDup_error_paths dir1 dir2 (l : list string) :
  NoDup l → NoDup (omap (failure dir1 dir2) l).*1.
Proof.
  induction 1 as [|f l Hf Hl IH]; simpl; [constructor|].
  unfold failure at 1. destruct (verdict_of dir1 dir2 f); try done.
  simpl. constructor; [|done].
  rewrite list_elem_of_fmap. intros ([g msg'] & -> & Hin).
  apply list_elem_of_omap in Hin as (g' & Hg' & Hfail).
  unfold failure in Hfail. destruct (verdict_of dir1 dir2 g'); try done.
  by injection Hfail as -> _.
Qed.

(** C1: [added] and [deleted] are the two differences of the file sets
    and are disjoint; [modified], [identical] and the paths of [errors]
    are pairwise disjoint and together are the intersection; each of the
    two differences with the intersection gives back a tree's set.  No
    path stands twice in the five buckets. *)
Theorem compare_directories_partition dir1 dir2 extensions :
  let r := compare_directories dir1 dir2 extensions in
  let files1 : gset string := list_to_set (get_file_list dir1 extensions) in
  let files2 : gset string := list_to_set (get_file_list dir2 extensions) in
  let added_s : gset string := list_to_set (added r) in
  let deleted_s : gset string := list_to_set (deleted r) in
  let modified_s : gset string := list_to_set (modified r) in
  let identical_s : gset string := list_to_set (identical r) in
  let errors_s : gset string := list_to_set (errors r).*1 in
  added_s = files2 ∖ files1
  ∧ deleted_s = files1 ∖ files2
  ∧ added_s ## deleted_s
  ∧ modified_s ## identical_s
  ∧ modified_s ## errors_s
  ∧ identical_s ## errors_s
  ∧ modified_s ∪ identical_s ∪ errors_s = files1 ∩ files2
  ∧ added_s ∪ (files1 ∩ files2) = files2
  ∧ deleted_s ∪ (files1 ∩ files2) = files1
  ∧ NoDup (added r ++ deleted r ++ modified r ++ identical r ++ (errors r).*1).
Proof.
  intros r files1 files2 added_s deleted_s modified_s identical_s errors_s.
  destruct (compare_directories_buckets dir1 dir2 extensions)
    as (Hra & Hrd & Hrm & Hri & Hre).
  fold r files1 files2 in Hra, Hrd, Hrm, Hri, Hre.
  assert (∀ f, f ∈ added_s ↔ f ∈ files2 ∧ f ∉ files1) as Ha.
  { intros f. unfold added_s.
    by rewrite elem_of_list_to_set, Hra, elem_of_sorted, elem_of_elements,
      elem_of_difference. }
  assert (∀ f, f ∈ deleted_s ↔ f ∈ files1 ∧ f ∉ files2) as Hd.
  { intros f. unfold deleted_s.
    by rewrite elem_of_list_to_set, Hrd, elem_of_sorted, elem_of_elements,
      elem_of_difference. }
  assert (∀ f, f ∈ modified_s ↔ f ∈ files1 ∧ f ∈ files2
                 ∧ verdict_of dir1 dir2 f = Modified) as Hm.
  { intros f. unfold modified_s, files1, files2, r.
    by rewrite !elem_of_list_to_set, elem_of_modified. }
  assert (∀ f, f ∈ identical_s ↔ f ∈ files1 ∧ f ∈ files2
                 ∧ verdict_of dir1 dir2 f = Identical) as Hi.
  { intros f. unfold identical_s, files1, files2, r.
    by rewrite !elem_of_list_to_set, elem_of_identical. }
  assert (∀ f, f ∈ errors_s ↔ f ∈ files1 ∧ f ∈ files2
                 ∧ ∃ msg, verdict_of dir1 dir2 f = Failed msg) as He.
  { intros f. unfold errors_s, files1, files2, r.
    by rewrite !elem_of_list_to_set, elem_of_error_paths. }
  split_and!.
  - apply set_eq. intros f. rewrite Ha, elem_of_difference. tauto.
  - apply set_eq. intros f. rewrite Hd, elem_of_difference. tauto.
  - intros f Hf1 Hf2. apply Ha in Hf1. apply Hd in Hf2. tauto.
  - intros f Hf1 Hf2. apply Hm in Hf1 as (_ & _ & Hv).
    apply Hi in Hf2 as (_ & _ & Hv'). congruence.
  - intros f Hf1 Hf2. apply Hm in Hf1 as (_ & _ & Hv).
    apply He in Hf2 as (_ & _ & msg & Hv'). congruence.
  - intros f Hf1 Hf2. apply Hi in Hf1 as (_ & _ & Hv).
    apply He in Hf2 as (_ & _ & msg & Hv'). congruence.
  - apply set_eq. intros f.
    rewrite !elem_of_union, elem_of_intersection, Hm, Hi, He.
    destruct (verdict_of dir1 dir2 f) as [| |msg] eqn:Hv.
    + split; [intros [[H|H]|H]; tauto | intros [H1 H2]; left; right; done].
    + split; [intros [[H|H]|H]; tauto | intros [H1 H2]; left; left; done].
    + split; [intros [[H|H]|H]; tauto | intros [H1 H2]; right; eauto].
  - apply set_eq. intros f. rewrite elem_of_union, elem_of_intersection, Ha.
    destruct (decide (f ∈ files1)); tauto.
  - apply set_eq. intros f. rewrite elem_of_union, elem_of_intersection, Hd.
    destruct (decide (f ∈ files2)); tauto.
  - assert (NoDup (added r)) as Na
      by (rewrite Hra; apply NoDup_sorted, NoDup_elements).
    assert (NoDup (deleted r)) as Nd
      by (rewrite Hrd; apply NoDup_sorted, NoDup_elements).
    assert (NoDup (modified r)) as Nm
      by (rewrite Hrm; apply NoDup_sorted, NoDup_filter, NoDup_elements).
    assert (NoDup (identical r)) as Ni
      by (rewrite Hri; apply NoDup_sorted, NoDup_filter, NoDup_elements).
    assert (NoDup (errors r).*1) as Ne.
    { rewrite Hre. unfold sorted_pairs. rewrite merge_sort_Permutation.
      apply NoDup_error_paths, NoDup_elements. }
    assert (∀ f, f ∈ added r ↔ f ∈ added_s) as Ea
      by (intros; unfold added_s; by rewrite elem_of_list_to_set).
    assert (∀ f, f ∈ deleted r ↔ f ∈ deleted_s) as Ed
      by (intros; unfold deleted_s; by rewrite elem_of_list_to_set).
    assert (∀ f, f ∈ modified r ↔ f ∈ modified_s) as Em
      by (intros; unfold modified_s; by rewrite elem_of_list_to_set).
    assert (∀ f, f ∈ identical r ↔ f ∈ identical_s) as Ei
      by (intros; unfold identical_s; by rewrite elem_of_list_to_set).
    assert (∀ f, f ∈ (errors r).*1 ↔ f ∈ errors_s) as Ee
      by (intros; unfold errors_s; by rewrite elem_of_list_to_set).
    assert (∀ f, f ∈ added r → f ∈ files2 ∧ f ∉ files1) as Fa
      by (intros f Hf; by apply Ha, Ea).
    assert (∀ f, f ∈ deleted r → f ∈ files1 ∧ f ∉ files2) as Fd
      by (intros f Hf; by apply Hd, Ed).
    assert (∀ f, f ∈ modified r →
              f ∈ files1 ∧ f ∈ files2 ∧ verdict_of dir1 dir2 f = Modified) as Fm
      by (intros f Hf; by apply Hm, Em).
    assert (∀ f, f ∈ identical r →
              f ∈ files1 ∧ f ∈ files2 ∧ verdict_of dir1 dir2 f = Identical) as Fi
      by (intros f Hf; by apply Hi, Ei).
    assert (∀ f, f ∈ (errors r).*1 →
              f ∈ files1 ∧ f ∈ files2
              ∧ ∃ msg, verdict_of dir1 dir2 f = Failed msg) as Fe
      by (intros f Hf; by apply He, Ee).
    clear Ha Hd Hm Hi He Ea Ed Em Ei Ee Hra Hrd Hrm Hri Hre.
    apply NoDup_app. split_and!; [exact Na | | ].
    { intros f Hf. apply Fa in Hf as [Hf2 Hf1]. rewrite !elem_of_app.
      intros [H|[H|[H|H]]];
        [apply Fd in H | apply Fm in H | apply Fi in H | apply Fe in H]; tauto. }
    apply NoDup_app. split_and!; [exact Nd | | ].
    { intros f Hf. apply Fd in Hf as [Hf1 Hf2]. rewrite !elem_of_app.
      intros [H|[H|H]];
        [apply Fm in H | apply Fi in H | apply Fe in H]; tauto. }
    apply NoDup_app. split_and!; [exact Nm | | ].
    { intros f Hf. apply Fm in Hf as (_ & _ & Hv). rewrite !elem_of_app.
      intros [H|H]; [apply Fi in H as (_ & _ & Hv')
                    | apply Fe in H as (_ & _ & msg & Hv')]; congruence. }
    apply NoDup_app. split_and!; [exact Ni | | exact Ne].
    intros f Hf. apply Fi in Hf as (_ & _ & Hv).
    intros H. apply Fe in H as (_ & _ & msg & Hv'). congruence.
Qed.

(** C3: a common path at which both trees hold readable regular files is
    classified as identical when the two contents are equal and as
    modified when they differ, never the other way around (and never as
    an error). *)
Theorem identical_iff_same_bytes dir1 dir2 extensions file d1 d2 :
  let r := compare_directories dir1 dir2 extensions in
  file ∈ get_file_list dir1 extensions →
  file ∈ get_file_list dir2 extensions →
  resolve dir1 file = Some (File (Regular d1 true)) →
  resolve dir2 file = Some (File (Regular d2 true)) →
  (d1 = d2 → file ∈ identical r ∧ file ∉ modified r)
  ∧ (d1 ≠ d2 → file ∈ modified r ∧ file ∉ identical r)
  ∧ file ∉ (errors r).*1.
Proof.
  intros r H1 H2 R1 R2. subst r.
  rewrite elem_of_identical, elem_of_modified, elem_of_error_paths.
  assert (verdict_of dir1 dir2 file
          = if decide (d1 = d2) then Identical else Modified) as Hv.
  { unfold verdict_of, os_path_exists, filecmp_cmp, os_stat, read_bytes.
    rewrite R1, R2. simpl.
    destruct (Nat.eqb_spec (length d1) (length d2)) as [Hl|Hl]; simpl.
    - by case_bool_decide; case_decide.
    - case_decide; [congruence | done]. }
  rewrite Hv. split_and!.
  - intros ->. rewrite decide_True by done.
    split; [done | intros (_ & _ & [=])].
  - intros Hne. rewrite decide_False by done.
    split; [done | intros (_ & _ & [=])].
  - intros (_ & _ & msg & Hmsg). by case_decide.
Qed.

(** The first scenario of the specification: [a.txt] holds the same byte in
    both trees. *)
Lemma identical_iff_same_bytes_witness :
  let dir1 := Dir [("a.txt", File (Regular [Byte.x78] true))] in
  let dir2 := Dir [("a.txt", File (Regular [Byte.x78] true));
                   ("b.txt", File (Regular [Byte.x79] true))] in
  let r := compare_directories dir1 dir2 None in
  ("a.txt" ∈ identical r ∧ "a.txt" ∉ modified r)
  ∧ "a.txt" ∉ (errors r).*1.
Proof.
  intros dir1 dir2 r.
  assert ("a.txt" ∈ get_file_list dir1 None) as H1 by apply list_elem_of_here.
  assert ("a.txt" ∈ get_file_list dir2 None) as H2 by apply list_elem_of_here.
  destruct (identical_iff_same_bytes dir1 dir2 None "a.txt" [Byte.x78] [Byte.x78]
              H1 H2 eq_refl eq_refl) as (Hi & _ & He).
  split; [by apply Hi | exact He].
Defined.

End compare_directories.

(** ** Listing and access agree *)
Section listing_and_access.
Import Py Dd.

Lemma node_induction (P : node → Prop) :
  (∀ k, P (File k)) →
  (∀ entries, Forall (λ e, P e.2) entries → P (Dir entries)) →
  ∀ n, P n.
Proof.
  intros Hf Hd. fix IH 1. intros [k|entries]; [apply Hf|]. apply Hd.
  revert entries. fix IHes 1. intros [|[name child] entries].
  - constructor.
  - constructor; [apply IH | apply IHes].
Qed.

Lemma valid_name_no_slash name rest :
  valid_name name → startswith (name +:+ rest) "/" = false.
Proof.
  intros [Hne Hall]. destruct name as [|c name]; [done|].
  simpl in *. apply andb_true_iff in Hall as [Hc _].
  by apply negb_true_iff in Hc as ->.
Qed.

Lemma endswith_no_slash s :
  s ≠ "" → all_chars (λ c, negb (Ascii.eqb c "/")) s = true →
  endswith s "/" = false.
Proof.
  induction s as [|c s IH]; [done|]. intros _ Hall.
  simpl in Hall. apply andb_true_iff in Hall as [Hc Hs].
  rewrite endswith_unfold. apply orb_false_iff. split.
  - apply String.eqb_neq. intros [= -> _]. done.
  - destruct s as [|d s]; [done|]. by apply IH.
Qed.

Lemma endswith_app_nonempty a b suf :
  b ≠ "" → String.length suf ≤ String.length b →
  endswith (a +:+ b) suf = endswith b suf.
Proof.
  intros Hb Hlen. induction a as [|c a IH]; [done|].
  rewrite endswith_unfold. cbn [String.append]. rewrite IH.
  destruct (String.eqb_spec (String c (a +:+ b)) suf) as [He|_]; [|done].
  apply (f_equal String.length) in He. simpl in He.
  rewrite str_length_app in He. lia.
Qed.

(** The path of a list of names. *)
Lemma join_snoc names name :
  names ≠ [] → join "/" (names ++ [name]) = join "/" names +:+ "/" +:+ name.
Proof.
  induction names as [|x [|y names] IH]; intros Hne; [done|done|].
  change (join "/" ((x :: y :: names) ++ [name]))
    with (x +:+ "/" +:+ join "/" ((y :: names) ++ [name])).
  rewrite IH by done.
  change (join "/" (x :: y :: names)) with (x +:+ "/" +:+ join "/" (y :: names)).
  by rewrite !str_app_assoc.
Qed.

Lemma join_not_dir names :
  names ≠ [] → Forall valid_name names →
  join "/" names ≠ "" ∧ endswith (join "/" names) "/" = false.
Proof.
  induction names as [|x [|y names] IH]; intros Hne Hall; [done| |].
  - apply Forall_cons in Hall as [[Hx Hxs] _]. split; [done|].
    by apply endswith_no_slash.
  - apply Forall_cons in Hall as [[Hx Hxs] Hall].
    destruct (IH ltac:(done) Hall) as [Hn He].
    change (join "/" (x :: y :: names)) with (x +:+ "/" +:+ join "/" (y :: names)).
    split.
    + by destruct x.
    + rewrite <- str_app_assoc. rewrite endswith_app_nonempty; [done|done|].
      destruct (join "/" (y :: names)); [done | simpl; lia].
Qed.

Lemma os_path_join_names names name :
  Forall valid_name names → valid_name name →
  os_path_join (join "/" names) name = join "/" (names ++ [name]).
Proof.
  intros Hall Hname. unfold os_path_join.
  rewrite <- (str_app_nil_r name) at 1. rewrite valid_name_no_slash by done.
  destruct names as [|x names]; [done|].
  destruct (join_not_dir (x :: names) ltac:(done) Hall) as [Hn He].
  apply String.eqb_neq in Hn. rewrite Hn, He. simpl orb. cbv iota.
  by rewrite join_snoc.
Qed.

Lemma components_name name rest :
  all_chars (λ c, negb (Ascii.eqb c "/")) name = true →
  components (name +:+ String "/" rest) = name :: components rest.
Proof.
  induction name as [|c name IH]; intros Hall; [done|].
  simpl in Hall. apply andb_true_iff in Hall as [Hc Hs].
  apply negb_true_iff in Hc. cbn [String.append components].
  by rewrite Hc, IH.
Qed.

Lemma components_single name :
  all_chars (λ c, negb (Ascii.eqb c "/")) name = true →
  components name = [name].
Proof.
  induction name as [|c name IH]; intros Hall; [done|].
  simpl in Hall. apply andb_true_iff in Hall as [Hc Hs].
  apply negb_true_iff in Hc. cbn [components]. by rewrite Hc, IH.
Qed.

Lemma components_join names :
  names ≠ [] → Forall valid_name names → components (join "/" names) = names.
Proof.
  induction names as [|x [|y names] IH]; intros Hne Hall; [done| |].
  - apply Forall_cons in Hall as [[_ Hx] _]. by apply components_single.
  - apply Forall_cons in Hall as [[_ Hx] Hall].
    change (join "/" (x :: y :: names))
      with (x +:+ String "/" (join "/" (y :: names))).
    rewrite components_name by done. by rewrite IH.
Qed.

Lemma entry_named_unique entries name child :
  NoDup entries.*1 → (name, child) ∈ entries →
  entry_named name entries = Some child.
Proof.
  induction entries as [|[n c] entries IH]; intros Hnd Hin;
    [by apply elem_of_nil in Hin|].
  apply NoDup_cons in Hnd as [Hn Hnd]. simpl.
  apply elem_of_cons in Hin as [[= <- <-]|Hin].
  - by rewrite String.eqb_refl.
  - destruct (String.eqb_spec n name) as [->|_]; [|by apply IH].
    destruct Hn. apply list_elem_of_fmap. by exists (name, child).
Qed.

Lemma elem_of_filenames file entries :
  file ∈ filenames entries ↔ ∃ k, (file, File k) ∈ entries.
Proof.
  unfold filenames. rewrite list_elem_of_fmap. split.
  - intros ([name [k|es]] & -> & Hin); apply list_elem_of_filter in Hin as [Hd Hin];
      [by exists k | done].
  - intros [k Hin]. exists (file, File k). split; [done|].
    by apply list_elem_of_filter.
Qed.

Lemma os_walk_Dir top entries :
  os_walk top (Dir entries)
  = (top, dirnames entries, filenames entries)
    :: (entries ≫= λ e, if is_dir e.2 then os_walk (os_path_join top e.1) e.2
                        else []).
Proof.
  cbn [os_walk]. f_equal.
  induction entries as [|[name child] entries IH]; [done|].
  cbn [mbind list_bind]. by rewrite IH.
Qed.

Lemma descend_app n names m rest :
  descend n names = Some m → descend n (names ++ rest) = descend m rest.
Proof.
  revert n. induction names as [|name names IH]; intros n; simpl.
  - by intros [= ->].
  - destruct n as [k|entries]; [done|].
    destruct (entry_named name entries); [apply IH | done].
Qed.

(** Every triple of the walk is a directory of the tree: its root is the
    path of the names that lead to it, its file names are those of the
    entries of that directory. *)
Lemma os_walk_descend n :
  ∀ names root dirs files,
    well_formed n → Forall valid_name names →
    (root, dirs, files) ∈ os_walk (join "/" names) n →
    ∃ below entries,
      Forall valid_name below
      ∧ root = join "/" (names ++ below)
      ∧ descend n below = Some (Dir entries)
      ∧ files = filenames entries
      ∧ well_formed (Dir entries).
Proof.
  induction n as [k|entries IH] using node_induction;
    intros names root dirs files Hwf Hnames Hin.
  - by apply elem_of_nil in Hin.
  - rewrite os_walk_Dir in Hin. apply elem_of_cons in Hin as [[= -> -> ->]|Hin].
    + exists [], entries. rewrite app_nil_r. by split_and!.
    + apply list_elem_of_bind in Hin as ([name child] & Hin & Hentry).
      simpl in Hin. destruct (is_dir child) eqn:Hd; [|by apply elem_of_nil in Hin].
      inversion Hwf as [|? Hnd Hall]; subst.
      rewrite Forall_forall in Hall, IH.
      destruct (Hall _ Hentry) as [Hname Hchild]. simpl in Hname, Hchild.
      rewrite os_path_join_names in Hin by done.
      destruct (IH _ Hentry (names ++ [name]) root dirs files Hchild) as
        (below & entries' & Hbelow & -> & Hdesc & -> & Hwf'); [|done|].
      { apply Forall_app. split; [done|]. by constructor. }
      exists (name :: below), entries'. split_and!; try done.
      * by constructor.
      * by rewrite <- (assoc_L (++)).
      * simpl. by rewrite (entry_named_unique entries name child).
Qed.

(** In a well-formed tree every listed path names a file of the tree: what
    [get_file_list] lists is what the comparison then finds. *)
Theorem listed_path_resolves dir extensions p :
  well_formed dir → p ∈ get_file_list dir extensions →
  ∃ k, resolve dir p = Some (File k).
Proof.
  intros Hwf Hp.
  apply elem_of_get_file_list in Hp as (root & file & (dirs & files & Hw & Hf) & -> & _).
  change "" with (join "/" []) in Hw.
  apply os_walk_descend in Hw as (below & entries & Hbelow & -> & Hdesc & -> & Hwf');
    [|done|constructor].
  apply elem_of_filenames in Hf as [k Hk].
  inversion Hwf' as [|? Hnd Hall]; subst.
  rewrite Forall_forall in Hall. destruct (Hall _ Hk) as [Hname _]. simpl in Hname.
  exists k. unfold resolve. simpl app.
  rewrite os_path_join_names by done.
  rewrite components_join.
  - rewrite (descend_app _ _ _ _ Hdesc). simpl.
    by rewrite (entry_named_unique entries file (File k)).
  - by destruct below.
  - apply Forall_app. split; [done|]. by constructor.
Qed.

End listing_and_access.

(** ** show_file_diff and generate_html_diff *)
Section diff_functions.
Import Py Dd.

Lemma show_file_diff_total env file1 file2 :
  ∃ s, show_file_diff env file1 file2 = Return s.
Proof.
  unfold show_file_diff, try_except, bind.
  destruct (readlines env file1) as [c1|e1]; [|eauto].
  destruct (readlines env file2) as [c2|e2]; [|eauto].
  destruct (unified_diff env c1 c2 file1 file2) as [d|e3]; eauto.
Qed.

Lemma generate_html_diff_total env file1 file2 file_path :
  ∃ h, generate_html_diff env file1 file2 file_path = Return h.
Proof.
  unfold generate_html_diff, try_except, bind.
  destruct (readlines env file1) as [c1|e1]; [|eauto].
  destruct (readlines env file2) as [c2|e2]; [|eauto].
  destruct (make_file env c1 c2 _ _) as [d|e3]; eauto.
Qed.

(** C7: the two functions always return and never raise.  When reading a
    file or the diff itself fails with [e], [show_file_diff] returns the
    text that describes [e] and [generate_html_diff] returns the error
    page with the escaped message of [e]. *)
Theorem diff_functions_never_raise env file1 file2 file_path :
  (∃ s, show_file_diff env file1 file2 = Return s)
  ∧ (∃ h, generate_html_diff env file1 file2 file_path = Return h)
  ∧ (∀ e, diff_fails env (λ c1 c2, unified_diff env c1 c2 file1 file2)
            file1 file2 e →
          show_file_diff env file1 file2
          = Return ("Error generating diff: " +:+ str_of_exn e))
  ∧ (∀ e, diff_fails env
            (λ c1 c2, make_file env c1 c2 ("Original: " +:+ file1)
                        ("Modified: " +:+ file2))
            file1 file2 e →
          generate_html_diff env file1 file2 file_path = Return (error_page e)).
Proof.
  split_and!.
  - apply show_file_diff_total.
  - apply generate_html_diff_total.
  - intros e [H1|[(c1 & H1 & H2)|(c1 & c2 & H1 & H2 & H3)]];
      unfold show_file_diff, try_except, bind; rewrite H1; try done;
      rewrite H2; try done; by rewrite H3.
  - intros e [H1|[(c1 & H1 & H2)|(c1 & c2 & H1 & H2 & H3)]];
      unfold generate_html_diff, try_except, bind; rewrite H1; try done;
      rewrite H2; try done; by rewrite H3.
Qed.

(** A run in which the second file cannot be read. *)
Example unreadable_file :
  let env := {| readlines := λ p, if String.eqb p "old/a.txt" then Return ["x"]
                                  else Raise (Exn "PermissionError" "<denied> & gone");
                unified_diff := λ _ _ _ _, Return [];
                make_file := λ _ _ _ _, Return EmptyString |} in
  show_file_diff env "old/a.txt" "new/a.txt"
  = Return "Error generating diff: <denied> & gone"
  ∧ generate_html_diff env "old/a.txt" "new/a.txt" "a.txt"
    = Return "<html><body><h2>Error generating diff</h2><p>&lt;denied&gt; &amp; gone</p></body></html>".
Proof. split; reflexivity. Qed.

End diff_functions.

(** ** generate_html_report: the names of the diff files *)
Section diff_file_names.
Import Py Dd.

(** Replacing one character by one character changes that character
    wherever it stands and nothing else. *)
Lemma replace_char s a b :
  replace s (String a "") (String b "")
  = map_chars (λ c, if Ascii.eqb c a then b else c) s.
Proof.
  unfold replace. induction s as [|c s IH]; [done|].
  cbn [replace_from map_chars startswith String.length Nat.sub].
  destruct (Ascii.eqb c a); simpl; by rewrite IH.
Qed.

Lemma map_chars_compose f g s :
  map_chars g (map_chars f s) = map_chars (λ c, g (f c)) s.
Proof. induction s; simpl; congruence. Qed.

Lemma map_chars_ext f g s :
  (∀ c, f c = g c) → map_chars f s = map_chars g s.
Proof. intros Hfg. induction s; simpl; congruence. Qed.

Lemma length_map_chars f s : String.length (map_chars f s) = String.length s.
Proof. induction s; simpl; congruence. Qed.

Lemma file_id_of_spec file : file_id_of file = map_chars underscored file.
Proof.
  unfold file_id_of. rewrite !replace_char, !map_chars_compose.
  apply map_chars_ext. intros c. unfold underscored.
  destruct (Ascii.eqb_spec c "/") as [->|?]; [done|].
  destruct (Ascii.eqb_spec c "\") as [->|?]; [done|].
  destruct (Ascii.eqb_spec c ".") as [->|?]; [done|].
  by destruct (Ascii.eqb_spec c " ") as [->|?].
Qed.

(** The directory of the diff files is named [diffs]. *)
Lemma diff_dir_of_diffs output_path :
  ∃ output_dir, diff_dir_of output_path = os_path_join output_dir "diffs".
Proof.
  unfold diff_dir_of. destruct output_path as [p|]; [|by exists ""].
  destruct (String.eqb p ""); [by exists "" | by eexists].
Qed.

Lemma endswith_diffs_slash pre : endswith (pre +:+ "diffs") "/" = false.
Proof.
  induction pre as [|c pre IH]; [done|].
  rewrite endswith_unfold. cbn [String.append]. rewrite IH, orb_false_r.
  apply String.eqb_neq. intros [= _ H]. by destruct pre.
Qed.

Lemma os_path_join_diffs output_dir :
  ∃ pre, os_path_join output_dir "diffs" = pre +:+ "diffs".
Proof.
  unfold os_path_join. simpl.
  destruct (_ || _); [by exists output_dir|].
  exists (output_dir +:+ "/"). by rewrite str_app_assoc.
Qed.

Lemma startswith_file_id file :
  startswith (file_id_of file +:+ ".html") "/" = false.
Proof.
  rewrite file_id_of_spec. destruct file as [|c file]; [done|].
  simpl. unfold underscored.
  destruct (Ascii.eqb_spec c "/") as [->|Hne]; [done|].
  destruct (_ || _ || _); [done|].
  simpl. by destruct (Ascii.eqb_spec c "/").
Qed.

(** The diff file of a path: in the directory of the diff files, under the
    name made from the path. *)
Lemma diff_file_path output_path file :
  os_path_join (diff_dir_of output_path) (file_id_of file +:+ ".html")
  = diff_dir_of output_path +:+ "/" +:+ map_chars underscored file +:+ ".html".
Proof.
  destruct (diff_dir_of_diffs output_path) as [d Hd].
  destruct (os_path_join_diffs d) as [pre Hpre].
  unfold os_path_join at 1. rewrite startswith_file_id, Hd, Hpre.
  rewrite endswith_diffs_slash, orb_false_r.
  destruct (String.eqb_spec (pre +:+ "diffs") "") as [He|_].
  - by destruct pre.
  - by rewrite file_id_of_spec.
Qed.

Lemma diff_link_path file :
  diff_link (file_id_of file) = "diffs/" +:+ map_chars underscored file +:+ ".html".
Proof.
  unfold diff_link, os_path_join. rewrite startswith_file_id.
  by rewrite file_id_of_spec.
Qed.

(** The loop writes the page of every file, one after the other, and
    records the link of every file. *)
Lemma write_diffs_spec env dir1 dir2 diff_dir fs diff_files files :
  write_diffs env dir1 dir2 diff_dir (fs, diff_files) files
  = Return
      (foldl (λ fs file, write_file (diff_file_of diff_dir file)
                           (diff_page env dir1 dir2 file) fs) fs files,
       foldl (λ df file, <[file := diff_link (file_id_of file)]> df)
         diff_files files).
Proof.
  revert fs diff_files. induction files as [|file files IH]; intros fs df.
  - done.
  - cbn [write_diffs foldl]. unfold write_diff, diff_page at 2.
    destruct (generate_html_diff_total env (os_path_join dir1 file)
                (os_path_join dir2 file) file) as [h ->].
    cbn [bind]. apply IH.
Qed.

Lemma links_lookup (df : gmap string string) files p :
  p ∈ files →
  foldl (λ df file, <[file := diff_link (file_id_of file)]> df) df files !! p
  = Some (diff_link (file_id_of p)).
Proof.
  intros Hp. revert df. induction files as [|file files IH] using rev_ind;
    intros df; [by apply elem_of_nil in Hp|].
  rewrite foldl_app. cbn [foldl].
  destruct (decide (file = p)) as [->|Hne].
  - apply lookup_insert_eq.
  - rewrite lookup_insert_ne by done. apply IH.
    apply elem_of_app in Hp as [Hp|Hp]; [done|].
    apply list_elem_of_singleton in Hp. congruence.
Qed.

Lemma written_lookup env dir1 dir2 diff_dir (fs : gmap string string) files p :
  p ∈ files →
  is_Some (foldl (λ fs file, write_file (diff_file_of diff_dir file)
                               (diff_page env dir1 dir2 file) fs) fs files
           !! diff_file_of diff_dir p).
Proof.
  intros Hp. revert fs. induction files as [|file files IH] using rev_ind;
    intros fs; [by apply elem_of_nil in Hp|].
  rewrite foldl_app. cbn [foldl]. unfold write_file at 1.
  destruct (decide (diff_file_of diff_dir file = diff_file_of diff_dir p))
    as [->|Hne].
  - rewrite lookup_insert_eq. eauto.
  - rewrite lookup_insert_ne by done. apply IH.
    apply elem_of_app in Hp as [Hp|Hp]; [done|].
    apply list_elem_of_singleton in Hp. congruence.
Qed.

(** C9, as the code has it: the diff of every modified file [p] is written
    into the [diffs] directory under the name made from [p] by replacing
    every slash, backslash, dot and space with an underscore, followed by
    [.html]; all other characters of [p] stay, and the report links to
    [diffs/] and that name. *)
Theorem diff_file_name env res dir1 dir2 output_path fs :
  ∃ fs' diff_files,
    generate_diff_files env res dir1 dir2 output_path fs
    = Return (fs', diff_files)
    ∧ (∃ output_dir, diff_dir_of output_path = os_path_join output_dir "diffs")
    ∧ ∀ p, p ∈ modified res →
        let name := map_chars underscored p +:+ ".html" in
        is_Some (fs' !! (diff_dir_of output_path +:+ "/" +:+ name))
        ∧ diff_files !! p = Some ("diffs/" +:+ name).
Proof.
  unfold generate_diff_files. rewrite write_diffs_spec.
  eexists _, _. split; [done|]. split; [apply diff_dir_of_diffs|].
  intros p Hp. cbv zeta. split.
  - rewrite <- diff_file_path. by apply written_lookup.
  - rewrite <- diff_link_path. by apply links_lookup.
Qed.

(** C9 as stated fails for a path with a space: the space does not stay,
    it becomes an underscore too. *)
Lemma file_id_space_counterexample :
  file_id_of "my file.txt" = "my_file_txt"
  ∧ map_chars stated_underscored "my file.txt" = "my file_txt"
  ∧ file_id_of "my file.txt" ≠ map_chars stated_underscored "my file.txt".
Proof. by split_and!. Qed.

(** C10: the name of the diff file is not injective in the path.  The
    two trees below differ in [a/b.txt] and in [a.b/txt]; both paths are
    modified, both get the name [a_b_txt.html], the diff of the second
    replaces the diff of the first, and both links of the report point to
    that one file. *)
Theorem diff_file_names_collide env dir1 dir2 output_path fs :
  let tree1 := Dir [("a", Dir [("b.txt", File (Regular [Byte.x31] true))]);
                    ("a.b", Dir [("txt", File (Regular [Byte.x31] true))])] in
  let tree2 := Dir [("a", Dir [("b.txt", File (Regular [Byte.x32] true))]);
                    ("a.b", Dir [("txt", File (Regular [Byte.x32] true))])] in
  let res := compare_directories tree1 tree2 None in
  let path := diff_dir_of output_path +:+ "/a_b_txt.html" in
  "a.b/txt" ≠ "a/b.txt"
  ∧ modified res = ["a.b/txt"; "a/b.txt"]
  ∧ file_id_of "a.b/txt" = file_id_of "a/b.txt"
  ∧ ∃ fs' diff_files,
      generate_diff_files env res dir1 dir2 output_path fs
      = Return (fs', diff_files)
      ∧ fs' = write_file path (diff_page env dir1 dir2 "a/b.txt")
                (write_file path (diff_page env dir1 dir2 "a.b/txt") fs)
      ∧ fs' !! path = Some (diff_page env dir1 dir2 "a/b.txt")
      ∧ modified_links res diff_files
        = [("diffs/a_b_txt.html", "a.b/txt"); ("diffs/a_b_txt.html", "a/b.txt")].
Proof.
  intros tree1 tree2 res path.
  assert (modified res = ["a.b/txt"; "a/b.txt"]) as Hm by (by vm_compute).
  split_and!; [done | done | done |].
  unfold generate_diff_files. rewrite write_diffs_spec, Hm. cbn [foldl].
  eexists _, _. split; [done|].
  unfold diff_file_of. rewrite !diff_file_path. cbn [map_chars].
  change (String (underscored "a") _ +:+ ".html") with "a_b_txt.html".
  change (String (underscored "a") _ +:+ ".html") with "a_b_txt.html".
  fold path. split_and!.
  - done.
  - unfold write_file. apply lookup_insert_eq.
  - unfold modified_links. rewrite Hm. cbn [fmap list_fmap].
    unfold lookup_total, map_lookup_total.
    rewrite lookup_insert_ne by done. rewrite !lookup_insert_eq. done.
Qed.

End diff_file_names.

(** ** main: where the transcript is saved *)
Section output_path.
Import Py Yt.

(** A relative file name given with [-o] is put under [transcripts/]. *)
Lemma output_path_relative o safe_title video_id :
  o ≠ "" → startswith o "/" = false →
  output_path (Some o) safe_title video_id = "transcripts/" +:+ o.
Proof.
  intros Hne Hrel. unfold output_path, os_path_join.
  apply String.eqb_neq in Hne. by rewrite Hne, Hrel.
Qed.

Lemma sanitize_no_slash title rest :
  startswith (sanitize title +:+ "_" +:+ rest) "/" = false.
Proof.
  destruct title as [|c title]; [done|]. simpl. unfold is_unsafe.
  destruct (Ascii.eqb_spec c "\") as [->|?]; [done|].
  destruct (Ascii.eqb_spec c "/") as [->|?]; [done|].
  simpl. destruct (_ || _); [done|]. by destruct (Ascii.eqb_spec c "/").
Qed.

(** Without [-o] (or with an empty one) the name made from the fetched
    title is put under [transcripts/]. *)
Lemma output_path_default o title video_id :
  o = None ∨ o = Some "" →
  output_path o (sanitize title) video_id
  = "transcripts/" +:+ sanitize title +:+ "_" +:+ video_id +:+ "_transcript.txt".
Proof.
  intros [-> | ->]; unfold output_path, os_path_join; cbv zeta;
    rewrite ?String.eqb_refl; by rewrite sanitize_no_slash.
Qed.

(** C6 fails on the code for an absolute [-o]: [os.path.join] drops
    [transcripts] and the transcript is saved at the given path, outside
    [transcripts/], with exit status 0; the directory [transcripts] is
    created all the same. *)
Theorem absolute_output_leaves_transcripts w dirs fs :
  let a := {| url := "https://youtu.be/dQw4w9WgXcQ";
              languages := None;
              output := Some "/tmp/out.txt" |} in
  ∃ dirs' fs',
    main w (λ _ _, Return []) a dirs fs = (0, Some "/tmp/out.txt", dirs', fs')
    ∧ "transcripts" ∈ dirs'
    ∧ is_Some (fs' !! "/tmp/out.txt")
    ∧ startswith "/tmp/out.txt" "transcripts/" = false.
Proof.
  intros a. unfold main.
  change (extract_video_id (strip (url a))) with (Return (A:=string) "dQw4w9WgXcQ").
  cbv iota beta.
  destruct (titles _ _) as [title safe_title].
  change (output_path (output a) safe_title "dQw4w9WgXcQ") with "/tmp/out.txt".
  eexists _, _. split; [done|]. split_and!; [|  |done].
  - apply elem_of_union_l, elem_of_singleton. done.
  - unfold save_transcript, write_file. rewrite lookup_insert_eq. eauto.
Qed.

(** Whenever the save step is reached without [-o] (or with an empty one)
    and the title was fetched, the transcript is saved under
    [transcripts/], and that directory exists. *)
Lemma main_default_under_transcripts w fetch_transcript a dirs fs path dirs' fs' title :
  output a = None ∨ output a = Some "" →
  (∀ video_id, fetch_video_title w ("https://www.youtube.com/watch?v=" +:+ video_id)
               = Return title) →
  main w fetch_transcript a dirs fs = (0, Some path, dirs', fs') →
  startswith path "transcripts/" = true ∧ "transcripts" ∈ dirs'.
Proof.
  intros Ho Ht. unfold main.
  destruct (extract_video_id (strip (url a))) as [video_id|]; [|done].
  cbv zeta. rewrite Ht. cbn [titles].
  destruct (fetch_transcript _ _); [|done].
  intros [= <- <- _]. split.
  - rewrite output_path_default by done. done.
  - apply elem_of_union_l, elem_of_singleton. done.
Qed.

End output_path.

(** ** fetch_video_title: the title tag *)
Section title_tag.
Import Py Yt.

Lemma replace_from_skip old new a b :
  replace_from old new (String.length a) (a +:+ b) = replace_from old new 0 b.
Proof. induction a as [|c a IH]; [done | apply IH]. Qed.

(** An occurrence at the start is replaced and the rest goes on after it. *)
Lemma replace_here old new b :
  old ≠ "" →
  replace (old +:+ b) old new = new +:+ replace b old new.
Proof.
  destruct old as [|o old]; [done|]. intros _. unfold replace.
  change (String o old +:+ b) with (String o (old +:+ b)).
  cbn [replace_from].
  change (String o (old +:+ b)) with (String o old +:+ b).
  rewrite startswith_app. cbn [String.length Nat.sub].
  by rewrite Nat.sub_0_r, replace_from_skip.
Qed.

(** Where [old] stands only at the very end of [t +:+ old], removing every
    occurrence removes that suffix. *)
Lemma replace_only_suffix old t :
  old ≠ "" →
  (∀ pre post, t +:+ old = pre +:+ old +:+ post → post = "") →
  replace (t +:+ old) old "" = t.
Proof.
  intros Hne. induction t as [|c t IH]; intros Honly.
  - pose proof (replace_here old "" "" Hne) as Hh.
    rewrite str_app_nil_r in Hh. simpl. rewrite Hh. by destruct old.
  - assert (startswith (String c t +:+ old) old = false) as Hs.
    { destruct (startswith _ old) eqn:Hs; [|done].
      apply startswith_spec in Hs as [rest Hrest].
      pose proof (Honly "" rest Hrest) as ->.
      apply (f_equal String.length) in Hrest.
      rewrite !str_length_app in Hrest. simpl in Hrest. lia. }
    destruct old as [|o old]; [done|]. unfold replace in *.
    change (String c t +:+ String o old) with (String c (t +:+ String o old)).
    cbn [replace_from].
    change (String c (t +:+ String o old)) with (String c t +:+ String o old).
    rewrite Hs. f_equal. apply IH. intros pre post Hpp.
    apply (Honly (String c pre) post). simpl. by rewrite Hpp.
Qed.

Lemma rev_app_rev_app a b c :
  String.rev_app (String.rev_app a b) c = String.rev_app b (a +:+ c).
Proof.
  revert b c. induction a as [|x a IH]; intros b c; [done|].
  simpl. by rewrite IH.
Qed.

Lemma rev_involutive s : String.rev (String.rev s) = s.
Proof. unfold String.rev. rewrite rev_app_rev_app. simpl. apply str_app_nil_r. Qed.

(** Nothing is stripped from a string with no whitespace at either end. *)
Lemma strip_nothing s :
  ws_len s = 0 → ws_len_rev (String.rev s) = 0 → strip s = s.
Proof.
  intros Hl Hr. unfold strip, lstrip, rstrip.
  assert (∀ len n t, len t = 0 → strip_go len n t = t) as Hgo.
  { intros len [|n] t Ht; simpl; [done | by rewrite Ht]. }
  rewrite (Hgo ws_len) by done. rewrite (Hgo ws_len_rev) by done.
  apply rev_involutive.
Qed.

(** The usual page title: the suffix stands once, at the end, and no
    whitespace surrounds what is before it.  Then the result of the code
    is the title without its suffix. *)
Lemma usual_title t :
  (∀ pre post, t +:+ " - YouTube" = pre +:+ " - YouTube" +:+ post → post = "") →
  ws_len t = 0 → ws_len_rev (String.rev t) = 0 →
  strip (replace (t +:+ " - YouTube") " - YouTube" "") = t.
Proof.
  intros Honly Hl Hr. rewrite replace_only_suffix by done.
  by apply strip_nothing.
Qed.

Lemma fetch_video_title_fallback w url e response :
  pytube_title w url = Raise e →
  requests_get w url = Return response →
  raise_for_status response = Return tt →
  fetch_video_title w url = title_from_html (text response).
Proof.
  intros Hp Hg Hs. unfold fetch_video_title. by rewrite Hp, Hg; simpl; rewrite Hs.
Qed.

(** C8, as the code has it: with no Open Graph title and a title tag, the
    fallback returns the content of the tag with every occurrence of
    [ - YouTube] removed, wherever it stands, and then the whitespace at
    both ends stripped. *)
Theorem title_tag_fallback w url e response title_raw :
  pytube_title w url = Raise e →
  requests_get w url = Return response →
  raise_for_status response = Return tt →
  og_title_search (text response) = None →
  title_tag_search (text response) = Some title_raw →
  fetch_video_title w url
  = Return (strip (replace title_raw " - YouTube" "")).
Proof.
  intros Hp Hg Hs Hog Ht.
  rewrite (fetch_video_title_fallback w url e response) by done.
  unfold title_from_html. by rewrite Hog, Ht.
Qed.

(** A page whose only title is its title tag. *)
Lemma title_tag_fallback_witness :
  fetch_video_title
    (page "<html><head><title>Never Gonna - YouTube</title></head></html>")
    "https://www.youtube.com/watch?v=dQw4w9WgXcQ"
  = Return "Never Gonna".
Proof.
  exact (title_tag_fallback
           (page "<html><head><title>Never Gonna - YouTube</title></head></html>")
           "https://www.youtube.com/watch?v=dQw4w9WgXcQ"
           (Exn "RegexMatchError" "no match")
           {| raise_for_status := Return tt;
              text := "<html><head><title>Never Gonna - YouTube</title></head></html>" |}
           "Never Gonna - YouTube" eq_refl eq_refl eq_refl eq_refl eq_refl).
Defined.

(** C8 as stated fails twice: [ - YouTube] is removed in the middle of a
    title too, and a title that keeps its suffix still loses the
    whitespace at its ends. *)
Lemma title_tag_fallback_counterexample :
  og_title_search "<title>A - YouTube Tutorial - YouTube</title>" = None
  ∧ title_tag_search "<title>A - YouTube Tutorial - YouTube</title>"
    = Some "A - YouTube Tutorial - YouTube"
  ∧ without_suffix "A - YouTube Tutorial - YouTube" " - YouTube"
    = "A - YouTube Tutorial"
  ∧ fetch_video_title (page "<title>A - YouTube Tutorial - YouTube</title>")
      "https://www.youtube.com/watch?v=dQw4w9WgXcQ"
    = Return "A Tutorial"
  ∧ title_tag_search "<title> Live </title>" = Some " Live "
  ∧ without_suffix " Live " " - YouTube" = " Live "
  ∧ fetch_video_title (page "<title> Live </title>")
      "https://www.youtube.com/watch?v=dQw4w9WgXcQ"
    = Return "Live".
Proof. by split_and!. Qed.

End title_tag.

(** ** save_transcript: reading the file back *)
Section save_transcript.
Import Py Yt.

(** The rounding is to a nearest integer: twice the distance of
    [q * den] from [num] is at most [den]. *)
Lemma round_half_even_nearest num den :
  (0 < den)%N →
  let q := round_half_even num den in
  (2 * (q * den) ≤ 2 * num + den ∧ 2 * num ≤ 2 * (q * den) + den)%N.
Proof.
  intros Hden q. subst q. unfold round_half_even.
  pose proof (N.div_mod' num den) as Hdm.
  assert (num mod den < den)%N as Hlt by (apply N.mod_lt; lia).
  set (k := (num / den)%N) in *. set (r := (num mod den)%N) in *.
  rewrite Hdm. clearbody k r.
  destruct (N.ltb_spec (2 * r) den);
    [|destruct (N.ltb_spec den (2 * r)); [|destruct (N.even k)]]; nia.
Qed.

Lemma lines_line l rest :
  no_newline l → lines (l +:+ NL +:+ rest) = l :: lines rest.
Proof.
  unfold no_newline. induction l as [|c l IH]; intros Hl; [done|].
  simpl in Hl. apply andb_true_iff in Hl as [Hc Hl].
  cbn [String.append lines]. apply negb_true_iff in Hc. rewrite Hc.
  by rewrite IH.
Qed.

Lemma split_at_app sep a b :
  all_chars (λ c, negb (Ascii.eqb c sep)) a = true →
  split_at sep (a +:+ String sep b) = Some (a, b).
Proof.
  induction a as [|c a IH]; intros Ha; simpl.
  - by rewrite Ascii.eqb_refl.
  - simpl in Ha. apply andb_true_iff in Ha as [Hc Ha].
    apply negb_true_iff in Hc. by rewrite Hc, IH.
Qed.

Lemma all_chars_impl (p q : ascii → bool) s :
  (∀ c, p c = true → q c = true) → all_chars p s = true → all_chars q s = true.
Proof.
  intros Hpq. induction s as [|c s IH]; simpl; [done|].
  rewrite !andb_true_iff. intros [Hc Hs]. auto.
Qed.

Lemma digit_val_digit d : (d < 10)%N → digit_val (digit d) = Some d.
Proof.
  intros Hd.
  assert (d = 0 ∨ d = 1 ∨ d = 2 ∨ d = 3 ∨ d = 4 ∨ d = 5 ∨ d = 6 ∨ d = 7
          ∨ d = 8 ∨ d = 9)%N as Hcases by lia.
  repeat (destruct Hcases as [-> | Hcases]; [reflexivity|]). by subst.
Qed.

Lemma is_digit_digit d : (d < 10)%N → is_digit (digit d) = true.
Proof. intros Hd. unfold is_digit. by rewrite digit_val_digit. Qed.

Lemma digits_of_uint d : all_chars is_digit (NilEmpty.string_of_uint d) = true.
Proof. induction d; simpl; auto. Qed.

Lemma digits_of_N n :
  all_chars is_digit (NilZero.string_of_uint (N.to_uint n)) = true
  ∧ NilZero.string_of_uint (N.to_uint n) ≠ "".
Proof.
  unfold NilZero.string_of_uint.
  destruct (N.to_uint n) eqn:Hn; (split; [done || apply digits_of_uint | done]).
Qed.

Lemma uint_of_string_of_N n :
  NilZero.uint_of_string (NilZero.string_of_uint (N.to_uint n)) = Some (N.to_uint n).
Proof.
  apply NilZero.usu. destruct n; [done|]. apply DecimalPos.Unsigned.to_uint_nonnil.
Qed.

Lemma is_digit_plain c : is_digit c = true → plain c = true.
Proof.
  unfold is_digit, digit_val, plain.
  destruct (Ascii.eqb_spec c "]") as [->|_]; [done|].
  by destruct (Ascii.eqb_spec c LF) as [->|_].
Qed.

Lemma is_digit_not c x :
  is_digit x = false → is_digit c = true → negb (Ascii.eqb c x) = true.
Proof. intros Hx Hc. by destruct (Ascii.eqb_spec c x) as [->|_]; [congruence|]. Qed.

Lemma two_digits_digits n : (n < 100)%N → all_chars is_digit (two_digits n) = true.
Proof.
  intros Hn. unfold two_digits. simpl.
  rewrite !is_digit_digit; [done| |].
  - apply N.mod_lt. lia.
  - apply N.Div0.div_lt_upper_bound. lia.
Qed.

(** What [format_2f] writes holds no closing bracket and no newline. *)
Lemma format_2f_plain x : all_chars plain (format_2f x) = true.
Proof.
  destruct x as [neg m e|[]|]; [|done..].
  unfold format_2f. cbv zeta. rewrite !all_chars_app.
  destruct (digits_of_N (hundredths m e / 100)) as [Hip _].
  rewrite (all_chars_impl _ _ _ is_digit_plain Hip).
  rewrite (all_chars_impl _ _ _ is_digit_plain
             (two_digits_digits (hundredths m e mod 100)
                ltac:(apply N.mod_lt; lia))).
  by destruct neg.
Qed.

Lemma parse_unsigned_2f_format n :
  parse_unsigned_2f
    (NilZero.string_of_uint (N.to_uint (n / 100)) +:+ "." +:+ two_digits (n mod 100))
  = Some n.
Proof.
  destruct (digits_of_N (n / 100)) as [Hip _].
  unfold parse_unsigned_2f.
  rewrite (split_at_app "." _ (two_digits (n mod 100))).
  - unfold two_digits. rewrite uint_of_string_of_N, DecimalN.Unsigned.of_to.
    assert (n mod 100 < 100)%N as Hfp by (apply N.mod_lt; lia).
    rewrite !digit_val_digit;
      [| apply N.mod_lt; lia | apply N.Div0.div_lt_upper_bound; lia].
    f_equal.
    pose proof (N.div_mod' n 100). pose proof (N.div_mod' (n mod 100) 10). lia.
  - revert Hip. apply all_chars_impl. intros c. by apply is_digit_not.
Qed.

(** Reading back what [format_2f] wrote gives the rounded value; an
    infinity or a NaN is not read as a number. *)
Lemma parse_2f_format_2f x : parse_2f (format_2f x) = round_2 x.
Proof.
  destruct x as [neg m e|[]|]; [|done..].
  unfold format_2f, round_2. cbv zeta.
  set (n := hundredths m e).
  pose proof (parse_unsigned_2f_format n) as Hn.
  destruct (digits_of_N (n / 100)) as [Hip Hne].
  destruct neg.
  - change ("-" +:+ ?s) with (String "-" s). unfold parse_2f.
    rewrite Ascii.eqb_refl, Hn. done.
  - change ("" +:+ ?s) with s.
    destruct (NilZero.string_of_uint (N.to_uint (n / 100))) as [|c ip'] eqn:Hipe;
      [done|].
    simpl in Hip. apply andb_true_iff in Hip as [Hc _].
    assert (Ascii.eqb c "-" = false) as Hc'
      by (by apply negb_true_iff, (is_digit_not c "-")).
    unfold parse_2f. cbn [String.append].
    rewrite Hc'. cbn [String.append] in Hn. by rewrite Hn.
Qed.

Lemma entry_line_row e : entry_line e = entry_row e +:+ NL +:+ "".
Proof.
  unfold entry_line, entry_row. cbv zeta.
  by rewrite str_app_nil_r, !str_app_assoc.
Qed.

Lemma no_newline_row e : no_newline (get_text e) → no_newline (entry_row e).
Proof.
  unfold no_newline, entry_row. intros Ht.
  change ("[" +:+ ?s) with (String "[" s). cbn [all_chars].
  rewrite !all_chars_app, Ht.
  assert (all_chars (λ c, negb (Ascii.eqb c LF)) (format_2f (get_start e)) = true)
    as ->; [|done].
  generalize (format_2f_plain (get_start e)). apply all_chars_impl.
  intros c. unfold plain. by intros [_ ?]%andb_true_iff.
Qed.

Lemma lines_entry_lines transcript :
  Forall (λ e, no_newline (get_text e)) transcript →
  lines (entry_lines transcript) = entry_row <$> transcript.
Proof.
  induction 1 as [|e transcript He _ IH]; [done|].
  cbn [entry_lines fmap list_fmap]. rewrite entry_line_row.
  rewrite !str_app_assoc. change ("" +:+ ?s) with s.
  rewrite lines_line by (by apply no_newline_row). by rewrite IH.
Qed.

(** An entry line is read as the rounded start and the text, unless the
    start is an infinity or a NaN. *)
Lemma parse_entry_row e :
  parse_entry_line (entry_row e)
  = (λ start, (start, get_text e)) <$> round_2 (get_start e).
Proof.
  unfold parse_entry_line, entry_row.
  change ("[" +:+ ?s) with (String "[" s). cbv beta iota.
  rewrite Ascii.eqb_refl.
  change ("] " +:+ ?s) with (String "]" (String " " s)).
  rewrite split_at_app.
  - rewrite Ascii.eqb_refl, parse_2f_format_2f.
    by destruct (round_2 (get_start e)).
  - generalize (format_2f_plain (get_start e)). apply all_chars_impl.
    intros c. unfold plain. by intros [? _]%andb_true_iff.
Qed.

Lemma lines_prefixed a b rest :
  no_newline a → no_newline b →
  lines (a +:+ b +:+ NL +:+ rest) = (a +:+ b) :: lines rest.
Proof.
  intros Ha Hb. rewrite <- str_app_assoc. apply lines_line.
  unfold no_newline in *. by rewrite all_chars_app, Ha, Hb.
Qed.

(** C4, as the code has it: where the title, the URL and the texts hold
    no newline and every start is finite, reading the written file back
    gives the texts in order, each with its start rounded to two decimals
    (to the nearest hundredth). *)
Theorem transcript_roundtrip transcript url title :
  no_newline title → no_newline url →
  Forall (λ e, no_newline (get_text e) ∧ is_finite (get_start e)) transcript →
  parse_transcript (transcript_text transcript url title)
  = Some ((λ e, (rounded_start e, get_text e)) <$> transcript).
Proof.
  intros Htitle Hurl Hall. unfold parse_transcript, transcript_text.
  rewrite !str_app_assoc.
  rewrite (lines_prefixed "Video Title: " title) by done.
  rewrite (lines_prefixed "Video URL: " url) by done.
  change (lines (NL +:+ ?r)) with (EmptyString :: lines r).
  rewrite lines_entry_lines.
  2:{ eapply Forall_impl; [exact Hall|]. by intros e [? _]. }
  apply mapM_Some. induction Hall as [|e transcript [_ Hfin] _ IH];
    [constructor|].
  cbn [fmap list_fmap]. constructor; [|exact IH].
  rewrite parse_entry_row. unfold rounded_start.
  by destruct (get_start e).
Qed.

(** Two entries, at 1.25 s and at 2.612... s; a closing bracket in a text
    does no harm. *)
Lemma transcript_roundtrip_witness :
  parse_transcript
    (transcript_text
       [ {| entry_text := Some "never gonna"; entry_start := Some (Finite false 5 (-2));
            entry_duration := Some (Finite false 1 1) |};
         {| entry_text := Some "give [you] up"; entry_start := Some (Finite false 2675 (-10));
            entry_duration := None |} ]
       "https://www.youtube.com/watch?v=dQw4w9WgXcQ" "Never Gonna")
  = Some [(125%Z, "never gonna"); (261%Z, "give [you] up")].
Proof.
  apply (transcript_roundtrip
           [ {| entry_text := Some "never gonna";
                entry_start := Some (Finite false 5 (-2));
                entry_duration := Some (Finite false 1 1) |};
             {| entry_text := Some "give [you] up";
                entry_start := Some (Finite false 2675 (-10));
                entry_duration := None |} ]
           "https://www.youtube.com/watch?v=dQw4w9WgXcQ" "Never Gonna").
  - reflexivity.
  - reflexivity.
  - repeat constructor.
Defined.

(** C4 as stated fails for a text with a newline in it: its second line
    is no entry line and the file is not read back; where that second line
    looks like an entry, the file is read back as one entry more. *)
Lemma transcript_newline_counterexample :
  parse_transcript
    (transcript_text
       [ {| entry_text := Some ("never" +:+ NL +:+ "gonna");
            entry_start := Some (Finite false 0 0); entry_duration := None |} ]
       "u" "t")
  = None
  ∧ parse_transcript
      (transcript_text
         [ {| entry_text := Some ("never" +:+ NL +:+ "[1.00] gonna");
              entry_start := Some (Finite false 0 0); entry_duration := None |} ]
         "u" "t")
    = Some [(0%Z, "never"); (100%Z, "gonna")].
Proof. split; reflexivity. Qed.

End save_transcript.

(** ** compare_directories: order, a tree against itself, the two trees swapped *)
Section comparison_results.
Import Py Dd.

(** X1: each of the five buckets comes out in ascending order, the paths
    by their characters and the errors by path and then message. *)
Theorem compare_directories_sorted dir1 dir2 extensions :
  let r := compare_directories dir1 dir2 extensions in
  Sorted String.le (added r) ∧ Sorted String.le (deleted r)
  ∧ Sorted String.le (modified r) ∧ Sorted String.le (identical r)
  ∧ Sorted pair_le (errors r).
Proof.
  intros r. unfold r.
  destruct (compare_directories_buckets dir1 dir2 extensions)
    as (-> & -> & -> & -> & ->).
  unfold sorted, sorted_pairs.
  split_and!; apply Sorted_merge_sort; apply _.
Qed.

Lemma filter_none {A} (P : A → Prop) `{∀ x, Decision (P x)} (l : list A) :
  (∀ x, x ∈ l → ¬ P x) → filter P l = [].
Proof.
  induction l as [|x l IH]; intros Hno; [done|].
  rewrite filter_cons, decide_False by (apply Hno; left).
  apply IH. intros y Hy. apply Hno. by right.
Qed.

Lemma omap_none {A B} (f : A → option B) (l : list A) :
  (∀ x, x ∈ l → f x = None) → omap f l = [].
Proof.
  induction l as [|x l IH]; intros Hno; [done|].
  simpl. rewrite Hno by left. apply IH. intros y Hy. apply Hno. by right.
Qed.

Lemma verdict_of_same dir file d :
  resolve dir file = Some (File (Regular d true)) →
  verdict_of dir dir file = Identical.
Proof.
  intros Hr. unfold verdict_of, os_path_exists, filecmp_cmp, os_stat, read_bytes.
  rewrite Hr. simpl. rewrite Nat.eqb_refl. simpl. by rewrite bool_decide_eq_true_2.
Qed.

Lemma all_readable_entry entries name child :
  all_readable (Dir entries) = true →
  entry_named name entries = Some child → all_readable child = true.
Proof.
  induction entries as [|[n c] entries IH]; [done|].
  cbn [all_readable entry_named]. intros [Hc Hrest]%andb_true_iff.
  destruct (String.eqb n name); [by intros [= <-] | by apply IH].
Qed.

Lemma all_readable_descend n names k :
  all_readable n = true → descend n names = Some (File k) →
  ∃ d, k = Regular d true.
Proof.
  revert n. induction names as [|name names IH]; intros n Hn; simpl.
  - intros [= ->]. destruct k as [d []| |]; try done. by exists d.
  - destruct n as [|entries]; [done|].
    destruct (entry_named name entries) as [child|] eqn:He; [|done].
    apply IH. by eapply all_readable_entry.
Qed.

Lemma compare_self dir extensions :
  well_formed dir → all_readable dir = true →
  let r := compare_directories dir dir extensions in
  added r = [] ∧ deleted r = [] ∧ modified r = [] ∧ errors r = []
  ∧ ∀ p, p ∈ identical r ↔ p ∈ get_file_list dir extensions.
Proof.
  intros Hwf Hreg r.
  assert (∀ p, p ∈ get_file_list dir extensions →
               verdict_of dir dir p = Identical) as Hv.
  { intros p Hp. destruct (listed_path_resolves dir extensions p Hwf Hp) as [k Hk].
    destruct (all_readable_descend _ _ _ Hreg Hk) as [d ->].
    by apply (verdict_of_same dir p d). }
  destruct (compare_directories_buckets dir dir extensions)
    as (Ha & Hd & Hm & Hi & He).
  fold r in Ha, Hd, Hm, Hi, He.
  assert (∀ p (X : gset string), X = list_to_set (get_file_list dir extensions) →
            p ∈ elements (X ∩ X) → p ∈ get_file_list dir extensions) as Hcommon.
  { intros p X -> Hp.
    by rewrite elem_of_elements, elem_of_intersection, !elem_of_list_to_set in Hp;
      destruct Hp. }
  split_and!.
  - rewrite Ha, difference_diag_L, elements_empty. done.
  - rewrite Hd, difference_diag_L, elements_empty. done.
  - rewrite Hm, filter_none; [done|].
    intros p Hp. rewrite Hv; [done|]. by eapply Hcommon.
  - rewrite He, omap_none; [done|].
    intros p Hp. unfold failure. rewrite Hv; [done|]. by eapply Hcommon.
  - intros p. unfold r. rewrite elem_of_identical. split; [tauto|]. auto.
Qed.

(** X2: a well-formed tree whose files are all readable regular files,
    compared with itself, has every listed file in [identical] and nothing
    in the other four buckets. *)
Theorem compare_directories_self dir extensions :
  well_formed dir → all_readable dir = true →
  let r := compare_directories dir dir extensions in
  added r = [] ∧ deleted r = [] ∧ modified r = [] ∧ errors r = []
  ∧ ∀ p, p ∈ identical r ↔ p ∈ get_file_list dir extensions.
Proof. apply compare_self. Qed.

Lemma compare_directories_self_witness :
  let dir := Dir [("a.txt", File (Regular [Byte.x78] true));
                  ("src", Dir [("b.c", File (Regular [] true))])] in
  let r := compare_directories dir dir None in
  added r = [] ∧ deleted r = [] ∧ modified r = [] ∧ errors r = []
  ∧ ∀ p, p ∈ identical r ↔ p ∈ get_file_list dir None.
Proof.
  intros dir. apply (compare_directories_self dir None).
  - solve_well_formed.
  - reflexivity.
Defined.

Lemma verdict_of_swap dir1 dir2 file :
  same_bucket (verdict_of dir1 dir2 file) (verdict_of dir2 dir1 file).
Proof.
  unfold verdict_of, os_path_exists, filecmp_cmp, os_stat, read_bytes.
  destruct (resolve dir1 file) as [[[d1 [] | |]|es1]|];
    destruct (resolve dir2 file) as [[[d2 [] | |]|es2]|]; simpl; try done;
    rewrite (Nat.eqb_sym (length d2) (length d1));
    destruct (length d1 =? length d2); simpl; try done.
  destruct (decide (d1 = d2)) as [->|Hne].
  - by rewrite !bool_decide_eq_true_2.
  - rewrite !bool_decide_eq_false_2; [done | congruence | done].
Qed.

(** X3: with the two trees swapped, [added] and [deleted] change places,
    [modified] and [identical] stay as they are, and the same paths have
    errors. *)
Theorem compare_directories_swap dir1 dir2 extensions :
  let r := compare_directories dir1 dir2 extensions in
  let r' := compare_directories dir2 dir1 extensions in
  added r' = deleted r ∧ deleted r' = added r
  ∧ modified r' = modified r ∧ identical r' = identical r
  ∧ ∀ p, p ∈ (errors r').*1 ↔ p ∈ (errors r).*1.
Proof.
  intros r r'.
  destruct (compare_directories_buckets dir1 dir2 extensions)
    as (Ha & Hd & Hm & Hi & _).
  destruct (compare_directories_buckets dir2 dir1 extensions)
    as (Ha' & Hd' & Hm' & Hi' & _).
  fold r in Ha, Hd, Hm, Hi. fold r' in Ha', Hd', Hm', Hi'.
  set (files1 := list_to_set (get_file_list dir1 extensions) : gset string) in *.
  set (files2 := list_to_set (get_file_list dir2 extensions) : gset string) in *.
  rewrite (comm_L (∩) files2 files1) in Hm', Hi'.
  split_and!.
  - by rewrite Ha', Hd.
  - by rewrite Hd', Ha.
  - rewrite Hm', Hm. f_equal. apply list_filter_iff. intros f.
    pose proof (verdict_of_swap dir1 dir2 f) as Hs.
    destruct (verdict_of dir1 dir2 f), (verdict_of dir2 dir1 f); done.
  - rewrite Hi', Hi. f_equal. apply list_filter_iff. intros f.
    pose proof (verdict_of_swap dir1 dir2 f) as Hs.
    destruct (verdict_of dir1 dir2 f), (verdict_of dir2 dir1 f); done.
  - intros p. unfold r, r'. rewrite !elem_of_error_paths.
    pose proof (verdict_of_swap dir1 dir2 p) as Hs.
    destruct (verdict_of dir1 dir2 p), (verdict_of dir2 dir1 p); try done;
      split; intros (H1 & H2 & msg' & Hmsg); try done; eauto.
Qed.

End comparison_results.

(** ** get_file_list: what a filter can do *)
Section filters.
Import Py Dd.

Lemma bind_sublist {A B} (f g : A → list B) (l : list A) :
  (∀ x, f x `sublist_of` g x) → (l ≫= f) `sublist_of` (l ≫= g).
Proof.
  intros Hfg. induction l as [|x l IH]; [done|].
  cbn [mbind list_bind]. by apply sublist_app.
Qed.

(** X4: a filter only leaves files out.  What [get_file_list] returns with
    a filter is what it returns without one, some paths removed and the
    order kept; the empty list filters nothing. *)
Theorem get_file_list_sublist dir extensions :
  get_file_list dir extensions `sublist_of` get_file_list dir None
  ∧ get_file_list dir (Some []) = get_file_list dir None.
Proof.
  split; [|done]. unfold get_file_list.
  apply bind_sublist. intros [[root dirs] files].
  apply bind_sublist. intros file.
  destruct (skipped extensions file); [apply sublist_nil_l | done].
Qed.

Lemma str_split_nonempty sep s : str_split sep s ≠ [].
Proof.
  destruct s as [|c s]; [done|]. simpl.
  destruct (Ascii.eqb c sep); [done|]. by destruct (str_split sep s).
Qed.

Lemma dotted_startswith ext :
  startswith (if startswith ext "." then ext else "." +:+ ext) "." = true.
Proof. destruct (startswith ext ".") eqn:Hs; [exact Hs | reflexivity]. Qed.

(** X5: the filter list [main] makes from [--extensions] is never empty
    and each of its strings starts with a dot; so on the command line a
    filter always is one, and a file is listed exactly when its name ends
    with one of the strings. *)
Theorem parse_extensions_filter arg exts :
  parse_extensions arg = Some exts →
  exts ≠ []
  ∧ Forall (λ ext, startswith ext "." = true) exts
  ∧ ∀ dir p,
      p ∈ get_file_list dir (Some exts)
      ↔ ∃ root file, walked dir root file ∧ p = os_path_join root file
                     ∧ ends_with_one_of file exts.
Proof.
  unfold parse_extensions. destruct arg as [a|]; [|done].
  destruct (String.eqb a ""); [done|]. cbv zeta. intros [= <-].
  pose proof (str_split_nonempty "," a) as Hne.
  split_and!.
  - by destruct (str_split "," a).
  - apply Forall_fmap, Forall_forall. intros ext _. apply dotted_startswith.
  - intros dir p. rewrite elem_of_get_file_list.
    destruct (str_split "," a) as [|x xs]; [done|].
    set (exts := _ <$> x :: xs).
    assert (∀ file, skipped (Some exts) file = false ↔ ends_with_one_of file exts)
      as Hskip.
    { intros file. rewrite <- any_endswith_spec.
      change (skipped (Some exts) file) with (negb (any_endswith file exts)).
      apply negb_false_iff. }
    split; intros (root & file & Hw & Hp & Hs); exists root, file;
      (split_and!; [done|done|by apply Hskip]).
Qed.

Lemma parse_extensions_filter_witness :
  [".c"; ".h"] ≠ []
  ∧ Forall (λ ext, startswith ext "." = true) [".c"; ".h"]
  ∧ ∀ dir p,
      p ∈ get_file_list dir (Some [".c"; ".h"])
      ↔ ∃ root file, walked dir root file ∧ p = os_path_join root file
                     ∧ ends_with_one_of file [".c"; ".h"].
Proof. exact (parse_extensions_filter (Some "c,.h") [".c"; ".h"] eq_refl). Defined.

End filters.

(** ** generate_html_report: what the loop over the modified files touches *)
Section diff_files_frame.
Import Py Dd.

Lemma dom_links (df : gmap string string) files :
  dom (foldl (λ df file, <[file := diff_link (file_id_of file)]> df) df files)
  = dom df ∪ list_to_set files.
Proof.
  revert df. induction files as [|file files IH]; intros df; simpl.
  - by rewrite (right_id_L ∅ (∪)).
  - rewrite IH, dom_insert_L, (comm_L (∪) {[file]} (dom df)).
    by rewrite (assoc_L (∪)).
Qed.

Lemma written_frame env dir1 dir2 diff_dir (fs : gmap string string) files path :
  (∀ file, file ∈ files → diff_file_of diff_dir file ≠ path) →
  foldl (λ fs file, write_file (diff_file_of diff_dir file)
                      (diff_page env dir1 dir2 file) fs) fs files !! path
  = fs !! path.
Proof.
  revert fs. induction files as [|file files IH]; intros fs Hne; [done|].
  cbn [foldl]. rewrite IH by (intros f Hf; apply Hne; by right).
  unfold write_file. apply lookup_insert_ne. apply Hne. by left.
Qed.

(** X6: the loop gives every modified file, and nothing else, an entry in
    [diff_files] (so the report finds a link for each of them), and it
    changes no file outside the directory of the diff files. *)
Theorem generate_diff_files_frame env res dir1 dir2 output_path fs :
  ∃ fs' diff_files,
    generate_diff_files env res dir1 dir2 output_path fs
    = Return (fs', diff_files)
    ∧ dom diff_files = list_to_set (modified res)
    ∧ ∀ path, startswith path (diff_dir_of output_path +:+ "/") = false →
              fs' !! path = fs !! path.
Proof.
  unfold generate_diff_files. rewrite write_diffs_spec.
  eexists _, _. split; [done|]. split.
  - by rewrite dom_links, dom_empty_L, (left_id_L ∅ (∪)).
  - intros path Hpath. apply written_frame. intros file _ <-.
    unfold diff_file_of in Hpath. rewrite diff_file_path in Hpath.
    rewrite <- str_app_assoc in Hpath. by rewrite startswith_app in Hpath.
Qed.

End diff_files_frame.

(** ** generate_html_diff: what goes into the page is escaped *)
Section escaping.
Import Py Dd.

Lemma expand_app f a b : expand f (a +:+ b) = expand f a +:+ expand f b.
Proof. induction a as [|c a IH]; [done|]. simpl. by rewrite IH, str_app_assoc. Qed.

Lemma expand_expand f g s :
  expand g (expand f s) = expand (λ c, expand g (f c)) s.
Proof. induction s as [|c s IH]; [done|]. simpl. by rewrite expand_app, IH. Qed.

Lemma expand_ext f g s : (∀ c, f c = g c) → expand f s = expand g s.
Proof. intros Hfg. induction s; simpl; congruence. Qed.

(** Replacing one character by a string puts the string wherever the
    character stands. *)
Lemma replace_char_string s a new :
  replace s (String a "") new
  = expand (λ c, if Ascii.eqb c a then new else String c "") s.
Proof.
  unfold replace. induction s as [|c s IH]; [done|].
  cbn [replace_from expand startswith String.length Nat.sub].
  destruct (Ascii.eqb c a); simpl; by rewrite IH.
Qed.

(** The five replacements of [html.escape], one after the other, come to
    one pass that writes each character as its entity. *)
Lemma html_escape_expand s : html_escape s = expand escaped s.
Proof.
  unfold html_escape, DQUOTE. rewrite !replace_char_string, !expand_expand.
  apply expand_ext. intros c. unfold escaped.
  destruct (Ascii.eqb_spec c "&") as [->|H1]; [reflexivity|].
  destruct (Ascii.eqb_spec c "<") as [->|H2]; [reflexivity|].
  destruct (Ascii.eqb_spec c ">") as [->|H3]; [reflexivity|].
  destruct (Ascii.eqb_spec c "034") as [->|H4]; [reflexivity|].
  destruct (Ascii.eqb_spec c "'") as [->|H5]; [reflexivity|].
  apply Ascii.eqb_neq in H2, H3, H4, H5.
  cbn [expand String.append]. rewrite H2. cbn [expand String.append].
  rewrite H3. cbn [expand String.append]. rewrite H4.
  cbn [expand String.append]. by rewrite H5.
Qed.

Lemma escaped_no_markup c :
  all_chars (λ c, negb (is_markup c)) (escaped c) = true.
Proof.
  unfold escaped, is_markup.
  destruct (Ascii.eqb_spec c "&") as [->|H1]; [reflexivity|].
  destruct (Ascii.eqb_spec c "<") as [->|H2]; [reflexivity|].
  destruct (Ascii.eqb_spec c ">") as [->|H3]; [reflexivity|].
  destruct (Ascii.eqb_spec c "034") as [->|H4]; [reflexivity|].
  destruct (Ascii.eqb_spec c "'") as [->|H5]; [reflexivity|].
  apply Ascii.eqb_neq in H2, H3, H4, H5. simpl. by rewrite H2, H3, H4, H5.
Qed.

Lemma html_escape_no_markup s :
  all_chars (λ c, negb (is_markup c)) (html_escape s) = true.
Proof.
  rewrite html_escape_expand. induction s as [|c s IH]; [done|].
  simpl. by rewrite all_chars_app, escaped_no_markup, IH.
Qed.

(** X7: when reading or diffing fails, the page [generate_html_diff]
    returns holds the message of the exception character by character as
    entities: no [<], [>] or quote of the message reaches the page. *)
Theorem error_page_is_escaped env file1 file2 file_path e :
  diff_fails env
    (λ c1 c2, make_file env c1 c2 ("Original: " +:+ file1) ("Modified: " +:+ file2))
    file1 file2 e →
  ∃ message,
    generate_html_diff env file1 file2 file_path
    = Return ("<html><body><h2>Error generating diff</h2><p>" +:+ message
              +:+ "</p></body></html>")
    ∧ message = expand escaped (str_of_exn e)
    ∧ all_chars (λ c, negb (is_markup c)) message = true.
Proof.
  intros Hfail. exists (html_escape (str_of_exn e)). split_and!.
  - destruct Hfail as [H1|[(c1 & H1 & H2)|(c1 & c2 & H1 & H2 & H3)]];
      unfold generate_html_diff, try_except, bind; rewrite H1; try done;
      rewrite H2; try done; by rewrite H3.
  - apply html_escape_expand.
  - apply html_escape_no_markup.
Qed.

Lemma error_page_is_escaped_witness :
  let env := {| readlines := λ _, Raise (Exn "OSError" "no <file> & no 'luck'");
                unified_diff := λ _ _ _ _, Return [];
                make_file := λ _ _ _ _, Return EmptyString |} in
  ∃ message,
    generate_html_diff env "old/a.txt" "new/a.txt" "a.txt"
    = Return ("<html><body><h2>Error generating diff</h2><p>" +:+ message
              +:+ "</p></body></html>")
    ∧ message = expand escaped "no <file> & no 'luck'"
    ∧ all_chars (λ c, negb (is_markup c)) message = true.
Proof.
  intros env.
  apply (error_page_is_escaped env "old/a.txt" "new/a.txt" "a.txt"
           (Exn "OSError" "no <file> & no 'luck'")).
  by left.
Defined.

End escaping.

(** ** generate_html_report: where the diff files go *)
Section diff_directory.
Import Py Dd.

Lemma head_of_name name :
  all_chars (λ c, negb (Ascii.eqb c "/")) name = true → head_of name = "".
Proof.
  induction name as [|c name IH]; [done|]. simpl.
  intros [Hc Hn]%andb_true_iff. rewrite IH by done.
  by apply negb_true_iff in Hc as ->.
Qed.

Lemma head_of_dir d name :
  all_chars (λ c, negb (Ascii.eqb c "/")) name = true →
  head_of (d +:+ String "/" name) = d +:+ "/".
Proof.
  intros Hname. induction d as [|c d IH].
  - cbn [String.append head_of]. by rewrite head_of_name.
  - cbn [String.append head_of]. rewrite IH. by destruct d.
Qed.

Lemma rstrip_slashes_dir d :
  d ≠ "" → endswith d "/" = false →
  rstrip_slashes (d +:+ "/") = d ∧ all_slashes (d +:+ "/") = false.
Proof.
  induction d as [|c d IH]; [done|]. intros _ He.
  rewrite endswith_unfold in He. apply orb_false_iff in He as [Hc Hd].
  destruct d as [|c' d].
  - simpl in *. destruct (Ascii.eqb c "/"); done.
  - destruct (IH ltac:(done) Hd) as [IH1 IH2].
    cbn [String.append rstrip_slashes all_slashes] in *.
    rewrite IH1, IH2. by rewrite andb_false_r.
Qed.

(** X8: the diff files go into a directory [diffs] beside the report: for
    a report at [d/name] it is [d/diffs], for a report named without a
    directory it is [diffs] in the current directory. *)
Theorem diff_dir_beside_report d name :
  d ≠ "" → endswith d "/" = false → valid_name name →
  diff_dir_of (Some (d +:+ "/" +:+ name)) = d +:+ "/diffs"
  ∧ diff_dir_of (Some name) = "diffs".
Proof.
  intros Hd He [Hname Hchars]. unfold diff_dir_of, os_path_dirname. split.
  - destruct (String.eqb_spec (d +:+ "/" +:+ name) "") as [Hempty|_];
      [by destruct d|].
    change (d +:+ "/" +:+ name) with (d +:+ String "/" name).
    rewrite head_of_dir by done.
    destruct (rstrip_slashes_dir d Hd He) as [-> ->].
    replace (String.eqb (d +:+ "/") "") with false by (by destruct d).
    cbn [negb andb]. unfold os_path_join. cbn [startswith].
    apply String.eqb_neq in Hd. by rewrite Hd, He.
  - apply String.eqb_neq in Hname. rewrite Hname.
    by rewrite head_of_name.
Qed.

Lemma diff_dir_beside_report_witness :
  diff_dir_of (Some "out/site/report.html") = "out/site/diffs"
  ∧ diff_dir_of (Some "report.html") = "diffs".
Proof.
  apply (diff_dir_beside_report "out/site" "report.html");
    [discriminate | reflexivity | split; [discriminate | reflexivity]].
Defined.

End diff_directory.

(** ** compare_directories: a link to nothing *)
Section broken_links.
Import Py Dd.

(** X9: a common path that is a broken symbolic link in one of the trees
    is reported in [errors], with the message of line 57, and in no other
    bucket. *)
Theorem broken_link_is_error dir1 dir2 extensions file :
  let r := compare_directories dir1 dir2 extensions in
  file ∈ get_file_list dir1 extensions →
  file ∈ get_file_list dir2 extensions →
  (resolve dir1 file = Some (File Dangling)
   ∨ resolve dir2 file = Some (File Dangling)) →
  (file, "File exists in listing but not accessible") ∈ errors r
  ∧ (file ∉ modified r) ∧ (file ∉ identical r).
Proof.
  intros r H1 H2 Hlink. unfold r.
  rewrite elem_of_errors, elem_of_modified, elem_of_identical.
  assert (verdict_of dir1 dir2 file
          = Failed "File exists in listing but not accessible") as ->.
  { unfold verdict_of, os_path_exists.
    destruct Hlink as [-> | ->]; [done|]. by rewrite andb_false_r. }
  split_and!; [done | done | done | |]; intros (_ & _ & Hv); discriminate Hv.
Qed.

Lemma broken_link_is_error_witness :
  let dir1 := Dir [("latest", File Dangling)] in
  let dir2 := Dir [("latest", File (Regular [Byte.x31] true))] in
  let r := compare_directories dir1 dir2 None in
  ("latest", "File exists in listing but not accessible") ∈ errors r
  ∧ ("latest" ∉ modified r) ∧ ("latest" ∉ identical r).
Proof.
  intros dir1 dir2.
  apply (broken_link_is_error dir1 dir2 None "latest").
  - apply list_elem_of_here.
  - apply list_elem_of_here.
  - by left.
Defined.

End broken_links.

(** ** extract_video_id and the canonical URL *)
Section canonical_url.
Import Py Yt.

Lemma re_search_id_skip c s :
  match_here (String c s) = None → re_search_id (String c s) = re_search_id s.
Proof. intros H. rewrite re_search_id_unfold. by rewrite H. Qed.

Lemma extract_id_token url video_id :
  extract_video_id url = Return video_id → id_token video_id.
Proof.
  unfold extract_video_id. destruct (re_search_id url) as [tok|] eqn:Hs; [|done].
  intros [= <-]. apply re_search_id_spec in Hs as (i & Hi & _).
  by destruct Hi as (pre & l & post & _ & _ & _ & Htok & _).
Qed.

(** X10: what [extract_video_id] returns is always eleven characters of
    [[0-9A-Za-z_-]], and the canonical URL that [main] builds from it gives
    the same identifier back. *)
Theorem canonical_url_roundtrip url video_id :
  extract_video_id url = Return video_id →
  id_token video_id
  ∧ extract_video_id ("https://www.youtube.com/watch?v=" +:+ video_id)
    = Return video_id.
Proof.
  intros Hx. pose proof (extract_id_token url video_id Hx) as Hid.
  split; [done|]. unfold extract_video_id.
  assert (re_search_id ("https://www.youtube.com/watch?v=" +:+ video_id)
          = Some video_id) as ->; [|done].
  cbn [String.append].
  do 30 (rewrite re_search_id_skip by reflexivity).
  rewrite re_search_id_unfold.
  assert (match_here (String "v" (String "=" video_id)) = Some video_id) as ->;
    [|done].
  apply match_here_spec. exists "", "v=", "". destruct Hid as [Hlen Hall].
  split_and!; try done.
  - by rewrite str_app_nil_r.
  - by left.
  - by left; left.
Qed.

Lemma canonical_url_roundtrip_witness :
  id_token "dQw4w9WgXcQ"
  ∧ extract_video_id ("https://www.youtube.com/watch?v=" +:+ "dQw4w9WgXcQ")
    = Return "dQw4w9WgXcQ".
Proof.
  exact (canonical_url_roundtrip "https://youtu.be/dQw4w9WgXcQ?si=abc"
           "dQw4w9WgXcQ" eq_refl).
Defined.

End canonical_url.

(** ** main: the safe title *)
Section safe_title.
Import Py Yt.

Lemma sanitize_no_unsafe title :
  all_chars (λ c, negb (is_unsafe c)) (sanitize title) = true.
Proof.
  induction title as [|c title IH]; [done|]. simpl. rewrite IH, andb_true_r.
  by destruct (is_unsafe c) eqn:Hc; [|rewrite Hc].
Qed.

Lemma sanitize_fixed title :
  all_chars (λ c, negb (is_unsafe c)) title = true → sanitize title = title.
Proof.
  induction title as [|c title IH]; [done|]. simpl.
  intros [Hc Ht]%andb_true_iff. apply negb_true_iff in Hc. by rewrite Hc, IH.
Qed.

(** X11: the safe title has the length of the title and holds none of the
    nine characters the source lists (backslash, slash, star, question mark,
    colon, double quote, angle brackets, bar); a title without them is left as it
    is, so making a title safe twice changes nothing more. *)
Theorem sanitize_safe title :
  String.length (sanitize title) = String.length title
  ∧ all_chars (λ c, negb (is_unsafe c)) (sanitize title) = true
  ∧ (all_chars (λ c, negb (is_unsafe c)) title = true → sanitize title = title)
  ∧ sanitize (sanitize title) = sanitize title.
Proof.
  split_and!.
  - induction title; simpl; congruence.
  - apply sanitize_no_unsafe.
  - apply sanitize_fixed.
  - apply sanitize_fixed, sanitize_no_unsafe.
Qed.

End safe_title.

(** ** fetch_video_title: the title from the page *)
Section page_title.
Import Py Yt.

Lemma lazy_group_no_newline close s g :
  lazy_group close s = Some g → no_newline g.
Proof.
  unfold no_newline. revert g. induction s as [|c s IH]; intros g; simpl.
  - destruct (close ""); [|done]. by intros [= <-].
  - destruct (close (String c s)); [by intros [= <-]|].
    destruct (Ascii.eqb c LF) eqn:Hc; [done|].
    destruct (lazy_group close s) as [g'|]; [|done].
    intros [= <-]. simpl. by rewrite Hc, (IH g').
Qed.

Lemma re_search_group_no_newline open close s g :
  re_search_group open close s = Some g → no_newline g.
Proof.
  induction s as [|c s IH]; simpl.
  - destruct (open "") as [r|]; [|done].
    destruct (lazy_group close r) eqn:Hg; [|done].
    intros [= <-]. by eapply lazy_group_no_newline.
  - destruct (open (String c s)) as [r|].
    + destruct (lazy_group close r) eqn:Hg; [|done].
      intros [= <-]. by eapply lazy_group_no_newline.
    + done.
Qed.

Lemma all_chars_drop p n s :
  all_chars p s = true → all_chars p (drop n s) = true.
Proof.
  revert s. induction n as [|n IH]; intros [|c s]; simpl; try done.
  intros [_ Hs]%andb_true_iff. by apply IH.
Qed.

Lemma all_chars_strip_go p len n s :
  all_chars p s = true → all_chars p (strip_go len n s) = true.
Proof.
  revert s. induction n as [|n IH]; intros s Hs; cbn [strip_go]; [done|].
  destruct (len s) as [|k]; [done|]. by apply IH, all_chars_drop.
Qed.

Lemma all_chars_rev_app p a b :
  all_chars p (String.rev_app a b) = all_chars p a && all_chars p b.
Proof.
  revert b. induction a as [|c a IH]; intros b; simpl; [done|].
  rewrite IH. simpl. by destruct (p c), (all_chars p a).
Qed.

Lemma all_chars_rev p s : all_chars p (String.rev s) = all_chars p s.
Proof. unfold String.rev. rewrite all_chars_rev_app. simpl. apply andb_true_r. Qed.

Lemma all_chars_strip p s : all_chars p s = true → all_chars p (strip s) = true.
Proof.
  intros Hs. unfold strip, rstrip, lstrip.
  rewrite all_chars_rev. apply all_chars_strip_go. rewrite all_chars_rev.
  by apply all_chars_strip_go.
Qed.

Lemma all_chars_remove p old k s :
  all_chars p s = true → all_chars p (replace_from old "" k s) = true.
Proof.
  revert k. induction s as [|c s IH]; intros k; [done|].
  intros [Hc Hs]%andb_true_iff. cbn [replace_from].
  destruct k as [|k]; [|by apply IH].
  destruct (startswith (String c s) old).
  - cbn [String.append]. by apply IH.
  - cbn [all_chars]. by rewrite Hc, IH.
Qed.

(** X12: a title that [fetch_video_title] takes from the page (the
    fallback after pytube failed) never holds a newline: the group of
    either pattern stops at one, and removing the site's suffix and
    stripping add none. *)
Theorem page_title_one_line w url e title :
  pytube_title w url = Raise e →
  fetch_video_title w url = Return title →
  no_newline title.
Proof.
  intros Hp. unfold fetch_video_title. rewrite Hp.
  destruct (requests_get w url) as [response|]; [|done]. simpl.
  destruct (raise_for_status response); [|done]. simpl.
  unfold title_from_html.
  destruct (og_title_search (text response)) as [og|] eqn:Hog.
  { intros [= <-]. by eapply re_search_group_no_newline. }
  destruct (title_tag_search (text response)) as [raw|] eqn:Ht; [|done].
  intros [= <-]. apply re_search_group_no_newline in Ht.
  apply all_chars_strip. by apply all_chars_remove.
Qed.

Lemma page_title_one_line_witness :
  no_newline "Some Video".
Proof.
  apply (page_title_one_line
           {| pytube_title := λ _, Raise (Exn "RegexMatchError" "no match");
              requests_get := λ _, Return
                {| raise_for_status := Return tt;
                   text := "<html><head><TITLE>Some Video - YouTube</TITLE>" |} |}
           "https://www.youtube.com/watch?v=dQw4w9WgXcQ"
           (Exn "RegexMatchError" "no match")); reflexivity.
Defined.

End page_title.

(** ** main: what a run leaves behind *)
Section main_outcome.
Import Py Yt.

Lemma id_char_safe c : is_id_char c = true → negb (is_unsafe c) = true.
Proof. by destruct c as [[] [] [] [] [] [] [] []]. Qed.

Lemma safe_no_slash s :
  all_chars (λ c, negb (is_unsafe c)) s = true →
  all_chars (λ c, negb (Ascii.eqb c "/")) s = true.
Proof.
  apply all_chars_impl. intros c.
  by destruct c as [[] [] [] [] [] [] [] []].
Qed.

Lemma no_slash_startswith s :
  all_chars (λ c, negb (Ascii.eqb c "/")) s = true → startswith s "/" = false.
Proof.
  destruct s as [|c s]; [done|]. simpl.
  intros [Hc _]%andb_true_iff. by apply negb_true_iff in Hc as ->.
Qed.

(** X13: without [-o] (or with an empty one) a saved transcript lies
    directly in [transcripts]: the path is [transcripts/] followed by one
    file name, made of the safe title, the identifier and the fixed suffix,
    and no character of that name is a slash or another of the replaced
    characters -- whether the title was fetched or the identifier stood in
    for it. *)
Theorem main_default_path w fetch_transcript a dirs fs :
  output a = None ∨ output a = Some "" →
  match main w fetch_transcript a dirs fs with
  | (_, Some path, _, _) =>
      ∃ safe_title video_id,
        let name := safe_title +:+ "_" +:+ video_id +:+ "_transcript.txt" in
        path = "transcripts/" +:+ name
        ∧ extract_video_id (strip (url a)) = Return video_id
        ∧ all_chars (λ c, negb (is_unsafe c)) name = true
  | _ => True
  end.
Proof.
  intros Ho. unfold main.
  destruct (extract_video_id (strip (url a))) as [video_id|] eqn:Hx; [|done].
  cbv zeta.
  destruct (titles video_id _) as [title safe_title] eqn:Ht.
  destruct (fetch_transcript video_id (languages a)); [|done].
  pose proof (extract_id_token _ _ Hx) as [_ Hid].
  assert (all_chars (λ c, negb (is_unsafe c)) video_id = true) as Hv.
  { revert Hid. apply all_chars_impl, id_char_safe. }
  assert (all_chars (λ c, negb (is_unsafe c)) safe_title = true) as Hs.
  { unfold titles in Ht. destruct (fetch_video_title w _).
    - injection Ht as _ <-. apply sanitize_no_unsafe.
    - by injection Ht as _ <-. }
  assert (all_chars (λ c, negb (is_unsafe c))
            (safe_title +:+ "_" +:+ video_id +:+ "_transcript.txt") = true)
    as Hname.
  { rewrite !all_chars_app, Hs, Hv. done. }
  exists safe_title, video_id. cbv zeta. split_and!; [|done|done].
  unfold output_path, os_path_join. cbv zeta.
  assert (match output a with
          | Some o => if String.eqb o "" then
                        safe_title +:+ "_" +:+ video_id +:+ "_transcript.txt"
                      else o
          | None => safe_title +:+ "_" +:+ video_id +:+ "_transcript.txt"
          end = safe_title +:+ "_" +:+ video_id +:+ "_transcript.txt") as ->.
  { by destruct Ho as [-> | ->]. }
  by rewrite (no_slash_startswith _ (safe_no_slash _ Hname)).
Qed.

Lemma main_default_path_witness :
  match main {| pytube_title := λ _, Return "What is 1/2?";
                requests_get := λ _, Raise (Exn "ConnectionError" "") |}
             (λ _ _, Return [])
             {| url := " https://youtu.be/dQw4w9WgXcQ ";
                languages := None; output := None |} ∅ ∅ with
  | (_, Some path, _, _) =>
      ∃ safe_title video_id,
        let name := safe_title +:+ "_" +:+ video_id +:+ "_transcript.txt" in
        path = "transcripts/" +:+ name
        ∧ extract_video_id (strip " https://youtu.be/dQw4w9WgXcQ ")
          = Return video_id
        ∧ all_chars (λ c, negb (is_unsafe c)) name = true
  | _ => True
  end.
Proof.
  apply (main_default_path
           {| pytube_title := λ _, Return "What is 1/2?";
              requests_get := λ _, Raise (Exn "ConnectionError" "") |}
           (λ _ _, Return [])
           {| url := " https://youtu.be/dQw4w9WgXcQ ";
              languages := None; output := None |} ∅ ∅).
  by left.
Defined.


End main_outcome.

(** ** fetch_transcript: the language preference *)
Section languages.
Import Py Yt.

(** X15: the languages given with [-l] are looked at only after the direct
    fetch failed with an [HTTPError].  Where the direct fetch of no video
    ends that way, [fetch_transcript] answers as the direct fetch does, and
    a run of [main] is the same whatever the languages. *)
Theorem languages_unused y w a langs dirs fs :
  (∀ video_id e, get_transcript y video_id = Raise e → is_HTTPError e = false) →
  (∀ video_id, fetch_transcript y video_id langs = get_transcript y video_id)
  ∧ main w (fetch_transcript y) a dirs fs
    = main w (fetch_transcript y)
        {| url := url a; languages := langs; output := output a |} dirs fs.
Proof.
  intros Hy.
  assert (∀ l video_id, fetch_transcript y video_id l = get_transcript y video_id)
    as Hf.
  { intros l video_id. unfold fetch_transcript.
    destruct (get_transcript y video_id) as [t|e] eqn:Hg; [done|].
    by rewrite (Hy _ _ Hg). }
  split; [apply Hf|]. unfold main. simpl.
  destruct (extract_video_id (strip (url a))); [|done]. cbv zeta.
  destruct (titles _ _). by rewrite !Hf.
Qed.

Lemma languages_unused_witness :
  let y := {| get_transcript := λ _, Raise (Exn "TranscriptsDisabled" "");
              list_transcripts := λ _, Raise (Exn "TranscriptsDisabled" "") |} in
  let w := {| pytube_title := λ _, Return "Title";
              requests_get := λ _, Raise (Exn "ConnectionError" "") |} in
  let a := {| url := "https://youtu.be/dQw4w9WgXcQ";
              languages := None; output := None |} in
  (∀ video_id, fetch_transcript y video_id (Some ["es"; "en"])
               = get_transcript y video_id)
  ∧ main w (fetch_transcript y) a ∅ ∅
    = main w (fetch_transcript y)
        {| url := url a; languages := Some ["es"; "en"]; output := output a |}
        ∅ ∅.
Proof.
  intros y w a. apply (languages_unused y w a (Some ["es"; "en"]) ∅ ∅).
  intros video_id e [= <-]. reflexivity.
Defined.

End languages.

(** ** get_file_list: the files of the tree, each once *)
Section listing_exact.
Import Py Dd.

Lemma entry_named_elem name entries child :
  entry_named name entries = Some child → (name, child) ∈ entries.
Proof.
  induction entries as [|[n c] entries IH]; [done|]. simpl.
  destruct (String.eqb_spec n name) as [->|_].
  - intros [= ->]. left.
  - intros H. right. by apply IH.
Qed.

Lemma descend_file_cons k name rest : descend (File k) (name :: rest) = None.
Proof. done. Qed.

Lemma descend_snoc n below name m :
  descend n (below ++ [name]) = Some m →
  ∃ entries, descend n below = Some (Dir entries)
             ∧ entry_named name entries = Some m.
Proof.
  revert n. induction below as [|b below IH]; intros n; simpl.
  - destruct n as [k|entries]; [done|].
    destruct (entry_named name entries) as [child|] eqn:He; [|done].
    intros [= <-]. by exists entries.
  - destruct n as [k|entries]; [done|].
    destruct (entry_named b entries) as [child|]; [apply IH | done].
Qed.

(** Every directory of the tree is a triple of the walk. *)
Lemma os_walk_complete below :
  ∀ n names entries,
    well_formed n → Forall valid_name names → Forall valid_name below →
    descend n below = Some (Dir entries) →
    (join "/" (names ++ below), dirnames entries, filenames entries)
    ∈ os_walk (join "/" names) n.
Proof.
  induction below as [|name rest IH]; intros n names entries Hwf Hnames Hbelow.
  - simpl. intros [= ->]. rewrite app_nil_r, os_walk_Dir. left.
  - simpl. destruct n as [k|es]; [done|].
    destruct (entry_named name es) as [child|] eqn:He; [|done].
    intros Hd. apply entry_named_elem in He.
    apply Forall_cons in Hbelow as [Hname Hrest].
    inversion Hwf as [|? Hnd Hall]; subst.
    rewrite Forall_forall in Hall. destruct (Hall _ He) as [_ Hchild].
    simpl in Hchild.
    rewrite os_walk_Dir. right. apply list_elem_of_bind.
    exists (name, child). split; [|done]. simpl.
    assert (is_dir child = true) as ->.
    { destruct child as [k|]; [|done]. by destruct rest. }
    rewrite os_path_join_names by done.
    replace (names ++ name :: rest) with ((names ++ [name]) ++ rest)
      by (by rewrite <- (assoc_L (++))).
    apply IH; try done. apply Forall_app. split; [done|]. by constructor.
Qed.

(** X16: on a well-formed tree [get_file_list] without a filter lists
    exactly the paths of the tree that lead to something other than a
    directory: a path is listed if and only if it is the names of a
    non-empty chain of entries, joined by slashes, that ends at a file. *)
Theorem get_file_list_exact dir p :
  well_formed dir →
  p ∈ get_file_list dir None
  ↔ ∃ names k, names ≠ [] ∧ Forall valid_name names
               ∧ p = join "/" names ∧ descend dir names = Some (File k).
Proof.
  intros Hwf. rewrite elem_of_get_file_list. split.
  - intros (root & file & (dirs & files & Hw & Hf) & -> & _).
    change "" with (join "/" []) in Hw.
    apply os_walk_descend in Hw
        as (below & entries & Hbelow & -> & Hdesc & -> & Hwf');
      [|done|constructor].
    apply elem_of_filenames in Hf as [k Hk].
    inversion Hwf' as [|? Hnd Hall]; subst.
    rewrite Forall_forall in Hall. destruct (Hall _ Hk) as [Hname _].
    simpl in Hname. simpl app.
    exists (below ++ [file]), k. split_and!.
    + by destruct below.
    + apply Forall_app. split; [done|]. by constructor.
    + by apply os_path_join_names.
    + rewrite (descend_app _ _ _ _ Hdesc). simpl.
      by rewrite (entry_named_unique entries file (File k)).
  - intros (names & k & Hne & Hall & -> & Hd).
    destruct (exists_last Hne) as (below & file & ->).
    apply Forall_app in Hall as [Hbelow Hfile].
    apply Forall_cons in Hfile as [Hfile _].
    apply descend_snoc in Hd as (entries & Hd & He).
    exists (join "/" below), file. split_and!; [|by rewrite os_path_join_names|done].
    exists (dirnames entries), (filenames entries). split.
    + change "" with (join "/" []).
      by apply (os_walk_complete below dir [] entries).
    + apply elem_of_filenames. exists k. by apply entry_named_elem.
Qed.

Lemma get_file_list_exact_witness :
  let dir := Dir [("a.txt", File (Regular [Byte.x78] true));
                  ("src", Dir [("b.c", File Special)])] in
  "src/b.c" ∈ get_file_list dir None
  ↔ ∃ names k, names ≠ [] ∧ Forall valid_name names
               ∧ "src/b.c" = join "/" names ∧ descend dir names = Some (File k).
Proof.
  intros dir. apply (get_file_list_exact dir "src/b.c"). solve_well_formed.
Defined.

(** Every triple of the walk is a directory of the tree, with the names
    of its sub-directories and of its files. *)
Lemma os_walk_triple n :
  ∀ names root dirs files,
    well_formed n → Forall valid_name names →
    (root, dirs, files) ∈ os_walk (join "/" names) n →
    ∃ below entries,
      Forall valid_name below
      ∧ root = join "/" (names ++ below)
      ∧ descend n below = Some (Dir entries)
      ∧ dirs = dirnames entries
      ∧ files = filenames entries
      ∧ well_formed (Dir entries).
Proof.
  induction n as [k|entries IH] using node_induction;
    intros names root dirs files Hwf Hnames Hin.
  - by apply elem_of_nil in Hin.
  - rewrite os_walk_Dir in Hin. apply elem_of_cons in Hin as [[= -> -> ->]|Hin].
    + exists [], entries. rewrite app_nil_r. by split_and!.
    + apply list_elem_of_bind in Hin as ([name child] & Hin & Hentry).
      simpl in Hin. destruct (is_dir child) eqn:Hd; [|by apply elem_of_nil in Hin].
      inversion Hwf as [|? Hnd Hall]; subst.
      rewrite Forall_forall in Hall, IH.
      destruct (Hall _ Hentry) as [Hname Hchild]. simpl in Hname, Hchild.
      rewrite os_path_join_names in Hin by done.
      destruct (IH _ Hentry (names ++ [name]) root dirs files Hchild) as
        (below & entries' & Hbelow & -> & Hdesc & -> & -> & Hwf'); [|done|].
      { apply Forall_app. split; [done|]. by constructor. }
      exists (name :: below), entries'. split_and!; try done.
      * by constructor.
      * by rewrite <- (assoc_L (++)).
      * simpl. by rewrite (entry_named_unique entries name child).
Qed.

Lemma join_inj a b :
  Forall valid_name a → Forall valid_name b →
  join "/" a = join "/" b → a = b.
Proof.
  intros Ha Hb Hab.
  destruct a as [|x a], b as [|y b]; [done| | |].
  - destruct (join_not_dir (y :: b) ltac:(done) Hb) as [Hn _]. by destruct Hn.
  - destruct (join_not_dir (x :: a) ltac:(done) Ha) as [Hn _]. by destruct Hn.
  - rewrite <- (components_join (x :: a)), <- (components_join (y :: b)) by done.
    by rewrite Hab.
Qed.

Lemma NoDup_entries (entries : list (string * node)) :
  NoDup entries.*1 → NoDup entries.
Proof. apply NoDup_fmap_1. Qed.

Lemma NoDup_filenames entries : NoDup entries.*1 → NoDup (filenames entries).
Proof.
  unfold filenames. induction entries as [|[n c] entries IH]; [constructor|].
  intros [Hn Hnd]%NoDup_cons. rewrite filter_cons.
  destruct (decide _); [|by apply IH].
  cbn [fmap list_fmap]. apply NoDup_cons. split; [|by apply IH].
  intros Hin. apply Hn. apply list_elem_of_fmap in Hin as (e & -> & He).
  apply list_elem_of_filter in He as [_ He].
  apply list_elem_of_fmap. by exists e.
Qed.

(** The walk yields no directory twice. *)
Lemma os_walk_NoDup n :
  ∀ names, well_formed n → Forall valid_name names →
           NoDup (os_walk (join "/" names) n).
Proof.
  induction n as [k|entries IH] using node_induction; intros names Hwf Hnames.
  - constructor.
  - rewrite os_walk_Dir. inversion Hwf as [|? Hnd Hall]; subst.
    rewrite Forall_forall in Hall, IH.
    assert (∀ e root dirs files,
              e ∈ entries →
              (root, dirs, files)
              ∈ (if is_dir e.2 then os_walk (os_path_join (join "/" names) e.1) e.2
                 else []) →
              ∃ below, Forall valid_name below
                       ∧ root = join "/" (names ++ e.1 :: below)) as Hsub.
    { intros [name child] root dirs files He Hin. simpl in Hin.
      destruct (is_dir child); [|by apply elem_of_nil in Hin].
      destruct (Hall _ He) as [Hname Hchild]. simpl in Hname, Hchild.
      rewrite os_path_join_names in Hin by done.
      apply os_walk_triple in Hin as (below & es & Hbelow & -> & _);
        [|done|by apply Forall_app; split; [|constructor]].
      exists below. split; [done|]. by rewrite <- (assoc_L (++)). }
    apply NoDup_cons. split.
    + intros Hin. apply list_elem_of_bind in Hin as (e & Hin & He).
      destruct (Hsub _ _ _ _ He Hin) as (below & Hbelow & Heq).
      destruct (Hall _ He) as [Hname _].
      apply join_inj in Heq; [| done |by apply Forall_app; split; [|constructor]].
      apply (f_equal length) in Heq. rewrite length_app in Heq. simpl in Heq. lia.
    + apply NoDup_bind.
      * intros e1 e2 [[root dirs] files] He1 He2 H1 H2.
        destruct (Hsub _ _ _ _ He1 H1) as (b1 & Hb1 & Hr1).
        destruct (Hsub _ _ _ _ He2 H2) as (b2 & Hb2 & Hr2).
        destruct (Hall _ He1) as [Hn1 _]. destruct (Hall _ He2) as [Hn2 _].
        rewrite Hr1 in Hr2. apply join_inj in Hr2;
          [| by apply Forall_app; split; [|constructor]
           | by apply Forall_app; split; [|constructor]].
        apply app_inv_head in Hr2. injection Hr2 as Hname _.
        destruct e1 as [n1 c1], e2 as [n2 c2]. simpl in Hname. subst n2.
        pose proof (entry_named_unique entries n1 c1 Hnd He1) as E1.
        pose proof (entry_named_unique entries n1 c2 Hnd He2) as E2.
        congruence.
      * intros [name child] He. simpl. destruct (is_dir child); [|constructor].
        destruct (Hall _ He) as [Hname Hchild]. simpl in Hname, Hchild.
        rewrite os_path_join_names by done.
        apply (IH _ He); [done|]. by apply Forall_app; split; [|constructor].
      * by apply NoDup_entries.
Qed.

Lemma NoDup_get_file_list dir extensions :
  well_formed dir → NoDup (get_file_list dir extensions).
Proof.
  intros Hwf.
  assert (get_file_list dir extensions `sublist_of` get_file_list dir None) as Hs.
  { unfold get_file_list. apply bind_sublist. intros [[root dirs] files].
    apply bind_sublist. intros file.
    destruct (skipped extensions file); [apply sublist_nil_l | done]. }
  apply (λ H, sublist_NoDup _ _ H Hs). clear Hs.
  assert (∀ root dirs files,
            (root, dirs, files) ∈ os_walk "" dir →
            ∃ below entries,
              Forall valid_name below ∧ root = join "/" below
              ∧ descend dir below = Some (Dir entries)
              ∧ dirs = dirnames entries
              ∧ files = filenames entries ∧ well_formed (Dir entries)) as Hw.
  { intros root dirs files Hin. change "" with (join "/" []) in Hin.
    apply os_walk_triple in Hin as (below & entries & ? & ? & ? & ? & ? & ?);
      [|done|constructor].
    by exists below, entries. }
  assert (∀ below entries file,
            Forall valid_name below → well_formed (Dir entries) →
            file ∈ filenames entries →
            Forall valid_name (below ++ [file])
            ∧ os_path_join (join "/" below) file = join "/" (below ++ [file]))
    as Hpath.
  { intros below entries file Hb Hwf' Hf.
    apply elem_of_filenames in Hf as [k Hk].
    inversion Hwf' as [|? Hnd Hall]; subst.
    rewrite Forall_forall in Hall. destruct (Hall _ Hk) as [Hname _].
    split; [|by apply os_path_join_names].
    apply Forall_app. split; [done|]. by constructor. }
  unfold get_file_list. apply NoDup_bind.
  - intros [[r1 d1] f1] [[r2 d2] f2] p H1 H2 Hp1 Hp2. simpl in Hp1, Hp2.
    destruct (Hw _ _ _ H1) as (b1 & e1 & Hb1 & -> & Hd1 & -> & -> & Hwf1).
    destruct (Hw _ _ _ H2) as (b2 & e2 & Hb2 & -> & Hd2 & -> & -> & Hwf2).
    apply list_elem_of_bind in Hp1 as (x1 & Hp1 & Hx1).
    apply list_elem_of_bind in Hp2 as (x2 & Hp2 & Hx2).
    apply list_elem_of_singleton in Hp1, Hp2.
    destruct (Hpath _ _ _ Hb1 Hwf1 Hx1) as [Hv1 E1].
    destruct (Hpath _ _ _ Hb2 Hwf2 Hx2) as [Hv2 E2].
    rewrite E1 in Hp1. rewrite E2 in Hp2. rewrite Hp1 in Hp2.
    apply join_inj in Hp2; [|done|done].
    apply app_inj_tail in Hp2 as [-> _].
    rewrite Hd1 in Hd2. by injection Hd2 as ->.
  - intros [[root dirs] files] Hin. simpl.
    destruct (Hw _ _ _ Hin) as (below & entries & Hb & -> & _ & -> & -> & Hwf').
    inversion Hwf' as [|? Hnd Hall]; subst.
    apply NoDup_bind.
    + intros x1 x2 p Hx1 Hx2 ->%list_elem_of_singleton E%list_elem_of_singleton.
      destruct (Hpath _ _ _ Hb Hwf' Hx1) as [Hv1 E1].
      destruct (Hpath _ _ _ Hb Hwf' Hx2) as [Hv2 E2].
      rewrite E1, E2 in E. apply join_inj in E; [|done|done].
      by apply app_inj_tail in E as [_ ->].
    + intros file Hf. apply NoDup_singleton.
    + by apply NoDup_filenames.
  - pose proof (os_walk_NoDup dir [] Hwf ltac:(constructor)) as Hnd.
    by change (join "/" []) with "" in Hnd.
Qed.

(** X17: on a well-formed tree [get_file_list] returns no path twice, with
    or without a filter. *)
Theorem get_file_list_NoDup dir extensions :
  well_formed dir → NoDup (get_file_list dir extensions).
Proof. apply NoDup_get_file_list. Qed.

Lemma get_file_list_NoDup_witness :
  NoDup (get_file_list
           (Dir [("a.txt", File (Regular [Byte.x78] true));
                 ("src", Dir [("a.txt", File Special); ("b.c", File Dangling)])])
           (Some [".txt"; "t"])).
Proof. apply get_file_list_NoDup. solve_well_formed. Defined.

End listing_exact.

(** ** main: the report on a directory and itself *)
Section self_report.
Import Py Dd.

Lemma length_identical_self dir extensions :
  well_formed dir → all_readable dir = true →
  length (identical (compare_directories dir dir extensions))
  = length (get_file_list dir extensions).
Proof.
  intros Hwf Hreg.
  destruct (compare_self dir extensions Hwf Hreg) as (_ & _ & _ & _ & Hi).
  apply Permutation_length, NoDup_Permutation; [| by apply NoDup_get_file_list | done].
  destruct (compare_directories_buckets dir dir extensions)
    as (_ & _ & _ & -> & _).
  apply NoDup_sorted, NoDup_filter, NoDup_elements.
Qed.

(** X18: the text report of a well-formed tree of readable regular files
    compared with itself, under any two names and with or without
    [--show-diff]: after the heading (and the filter line, when a filter
    is given) it counts no added, no deleted and no modified file, counts
    as identical every file [get_file_list] lists, and has no section of
    errors. *)
Theorem text_report_self env dir1 dir2 dir extensions show_diff :
  well_formed dir → all_readable dir = true →
  let nl := String LF EmptyString in
  text_report env dir1 dir2 extensions show_diff
    (compare_directories dir dir extensions)
  = join nl
      (["Comparing: " +:+ dir1 +:+ " and " +:+ dir2]
       ++ match extensions with
          | Some (ext :: exts) =>
              ["File extensions filter: " +:+ join ", " (ext :: exts)]
          | _ => []
          end
       ++ [""; "Added files (0):";
           nl +:+ "Deleted files (0):";
           nl +:+ "Modified files (0):";
           nl +:+ "Identical files: "
           +:+ str_of_nat (length (get_file_list dir extensions))]).
Proof.
  intros Hwf Hreg nl. unfold text_report.
  rewrite length_identical_self by done.
  destruct (compare_self dir extensions Hwf Hreg) as (-> & -> & -> & -> & _).
  done.
Qed.

Lemma text_report_self_witness :
  let dir := Dir [("a.txt", File (Regular [Byte.x78] true));
                  ("src", Dir [("b.c", File (Regular [] true))])] in
  let env := {| readlines := λ _, Return [];
                unified_diff := λ _ _ _ _, Return [];
                make_file := λ _ _ _ _, Return "" |} in
  let nl := String LF EmptyString in
  text_report env "old" "new" (Some [".c"]) true
    (compare_directories dir dir (Some [".c"]))
  = join nl
      (["Comparing: old and new"]
       ++ ["File extensions filter: .c"]
       ++ [""; "Added files (0):";
           nl +:+ "Deleted files (0):";
           nl +:+ "Modified files (0):";
           nl +:+ "Identical files: "
           +:+ str_of_nat (length (get_file_list dir (Some [".c"])))]).
Proof.
  intros dir env.
  apply (text_report_self env "old" "new" dir (Some [".c"]) true).
  - solve_well_formed.
  - reflexivity.
Defined.

End self_report.

(** ** compare_directories: files that are not read *)
Section unread_files.
Import Py Dd.

(** X19: a common path whose two entries differ in what [os.stat] shows --
    one is not a regular file (and none is a broken link), or the sizes
    differ -- is reported as modified, in no other bucket, and without
    either file being read: whether a file is readable plays no part. *)
Theorem modified_without_reading dir1 dir2 extensions file k1 k2 :
  let r := compare_directories dir1 dir2 extensions in
  file ∈ get_file_list dir1 extensions →
  file ∈ get_file_list dir2 extensions →
  resolve dir1 file = Some (File k1) →
  resolve dir2 file = Some (File k2) →
  differ_by_stat k1 k2 →
  file ∈ modified r ∧ (file ∉ identical r) ∧ (file ∉ (errors r).*1).
Proof.
  intros r H1 H2 R1 R2 Hk. unfold r.
  rewrite elem_of_modified, elem_of_identical, elem_of_error_paths.
  assert (verdict_of dir1 dir2 file = Modified) as ->.
  { unfold verdict_of, os_path_exists, filecmp_cmp, os_stat, read_bytes.
    rewrite R1, R2.
    destruct k1 as [d1 r1| |], k2 as [d2 r2| |]; simpl in *; try done.
    apply Nat.eqb_neq in Hk. by rewrite Hk. }
  split_and!; [done | done | done | |].
  - intros (_ & _ & Hv). discriminate Hv.
  - intros (_ & _ & msg & Hv). discriminate Hv.
Qed.

Lemma modified_without_reading_witness :
  let dir1 := Dir [("log", File (Regular [Byte.x31] false));
                   ("pipe", File Special)] in
  let dir2 := Dir [("log", File (Regular [Byte.x31; Byte.x32] true));
                   ("pipe", File Special)] in
  let r := compare_directories dir1 dir2 None in
  ("log" ∈ modified r ∧ ("log" ∉ identical r) ∧ ("log" ∉ (errors r).*1))
  ∧ ("pipe" ∈ modified r ∧ ("pipe" ∉ identical r) ∧ ("pipe" ∉ (errors r).*1)).
Proof.
  intros dir1 dir2. split.
  - apply (modified_without_reading dir1 dir2 None "log"
             (Regular [Byte.x31] false) (Regular [Byte.x31; Byte.x32] true)).
    + apply list_elem_of_here.
    + apply list_elem_of_here.
    + reflexivity.
    + reflexivity.
    + simpl. lia.
  - apply (modified_without_reading dir1 dir2 None "pipe" Special Special).
    + apply list_elem_of_further, list_elem_of_here.
    + apply list_elem_of_further, list_elem_of_here.
    + reflexivity.
    + reflexivity.
    + exact I.
Defined.

(** X20: a common path at which both trees hold regular files of the same
    size, one of them not readable, is reported in [errors] and in no other
    bucket -- also when the two contents are equal. *)
Theorem unreadable_is_error dir1 dir2 extensions file d1 d2 r1 r2 :
  let r := compare_directories dir1 dir2 extensions in
  file ∈ get_file_list dir1 extensions →
  file ∈ get_file_list dir2 extensions →
  resolve dir1 file = Some (File (Regular d1 r1)) →
  resolve dir2 file = Some (File (Regular d2 r2)) →
  length d1 = length d2 →
  r1 && r2 = false →
  file ∈ (errors r).*1 ∧ (file ∉ modified r) ∧ (file ∉ identical r).
Proof.
  intros r H1 H2 R1 R2 Hlen Hr. unfold r.
  rewrite elem_of_modified, elem_of_identical, elem_of_error_paths.
  assert (∃ msg, verdict_of dir1 dir2 file = Failed msg) as [msg Hv].
  { unfold verdict_of, os_path_exists, filecmp_cmp, os_stat, read_bytes.
    rewrite R1, R2. simpl. apply Nat.eqb_eq in Hlen. rewrite Hlen. simpl.
    destruct r1; simpl; [|by eexists].
    destruct r2; simpl; [done | by eexists]. }
  rewrite Hv. split_and!; [done | done | by eauto | |];
    intros (_ & _ & Hv'); discriminate Hv'.
Qed.

Lemma unreadable_is_error_witness :
  let dir1 := Dir [("key", File (Regular [Byte.x31] true))] in
  let dir2 := Dir [("key", File (Regular [Byte.x31] false))] in
  let r := compare_directories dir1 dir2 None in
  "key" ∈ (errors r).*1 ∧ ("key" ∉ modified r) ∧ ("key" ∉ identical r).
Proof.
  intros dir1 dir2.
  apply (unreadable_is_error dir1 dir2 None "key" [Byte.x31] [Byte.x31] true false);
    try reflexivity; apply list_elem_of_here.
Defined.

End unread_files.

(** ** main: the diff shown in the text report *)
Section shown_diff.
Import Py Dd.

Lemma str_split_parts sep s :
  Forall (λ x, all_chars (λ c, negb (Ascii.eqb c sep)) x = true)
         (str_split sep s).
Proof.
  induction s as [|c s IH]; [by repeat constructor|]. simpl.
  destruct (Ascii.eqb c sep) eqn:Hc; [by constructor|].
  destruct (str_split sep s) as [|x xs]; [by repeat constructor; simpl; rewrite Hc|].
  apply Forall_cons in IH as [Hx Hxs]. constructor; [|done].
  simpl. by rewrite Hc, Hx.
Qed.

Lemma str_split_single sep x :
  all_chars (λ c, negb (Ascii.eqb c sep)) x = true → str_split sep x = [x].
Proof.
  induction x as [|c x IH]; [done|]. simpl.
  intros [Hc Hx]%andb_true_iff. apply negb_true_iff in Hc.
  by rewrite Hc, IH.
Qed.

Lemma str_split_app sep x rest :
  all_chars (λ c, negb (Ascii.eqb c sep)) x = true →
  str_split sep (x +:+ String sep rest) = x :: str_split sep rest.
Proof.
  induction x as [|c x IH]; simpl.
  - intros _. by rewrite Ascii.eqb_refl.
  - intros [Hc Hx]%andb_true_iff. apply negb_true_iff in Hc.
    by rewrite Hc, IH.
Qed.

(** Joining parts that hold no separator and splitting again gives the
    parts back. *)
Lemma str_split_join sep l :
  l ≠ [] →
  Forall (λ x, all_chars (λ c, negb (Ascii.eqb c sep)) x = true) l →
  str_split sep (join (String sep "") l) = l.
Proof.
  induction l as [|x [|y l] IH]; intros Hne Hall; [done| |].
  - apply Forall_cons in Hall as [Hx _]. by apply str_split_single.
  - apply Forall_cons in Hall as [Hx Hall].
    change (join (String sep "") (x :: y :: l))
      with (x +:+ String sep (join (String sep "") (y :: l))).
    rewrite str_split_app by done. by rewrite IH.
Qed.

(** X21: with [--show-diff] the report shows a diff for every modified
    file: [show_file_diff] returns, so the handler of lines 617 and 618 is
    never entered, and the file adds its name, the heading, one block and
    an empty line.  The lines of the block are the lines of what
    [show_file_diff] returned, each after four spaces. *)
Theorem report_shows_indented_diff env dir1 dir2 file :
  ∃ diff block,
    show_file_diff env (os_path_join dir1 file) (os_path_join dir2 file)
    = Return diff
    ∧ modified_lines env dir1 dir2 true file
      = ["  * " +:+ file; String LF "  Differences:"; block; ""]
    ∧ str_split LF block = (λ line, "    " +:+ line) <$> str_split LF diff.
Proof.
  destruct (show_file_diff_total env (os_path_join dir1 file)
              (os_path_join dir2 file)) as [diff Hd].
  exists diff, (join (String LF "")
                  ((λ line, "    " +:+ line) <$> str_split LF diff)).
  split_and!.
  - done.
  - unfold modified_lines. cbv zeta. by rewrite Hd.
  - apply str_split_join.
    + pose proof (str_split_nonempty LF diff). by destruct (str_split LF diff).
    + apply Forall_fmap. eapply Forall_impl; [apply str_split_parts|].
      intros x Hx. simpl. by rewrite Hx.
Qed.

End shown_diff.

Example extract_scenario :
Yt.extract_video_id "https://youtu.be/dQw4w9WgXcQ?si=abc" = Py.Return "dQw4w9WgXcQ".
Proof. reflexivity. Qed.

Example title_example :
Yt.title_from_html "<html><TITLE>  A - YouTube Tutorial - YouTube </title></html>"
= Py.Return "A Tutorial".
Proof. reflexivity. Qed.

Example save_example :
Yt.transcript_text
  [ {| Yt.entry_text := Some "hello"; Yt.entry_start := Some (Py.Finite false 5 (-2));
       Yt.entry_duration := None |};
    {| Yt.entry_text := Some "x]y"; Yt.entry_start := Some (Py.Finite true 1 (-10));
       Yt.entry_duration := None |} ] "u" "t"
= "Video Title: t" +:+ Yt.NL +:+ "Video URL: u" +:+ Yt.NL +:+ Yt.NL
  +:+ "[1.25] hello" +:+ Yt.NL +:+ "[-0.00] x]y" +:+ Yt.NL.
Proof. reflexivity. Qed.

Example parse_example :
Yt.parse_transcript (Yt.transcript_text
  [ {| Yt.entry_text := Some "hello"; Yt.entry_start := Some (Py.Finite false 5 (-2));
       Yt.entry_duration := None |};
    {| Yt.entry_text := Some "x]y"; Yt.entry_start := Some (Py.Finite true 1 (-10));
       Yt.entry_duration := None |} ] "u" "t")
= Some [(125%Z, "hello"); (0%Z, "x]y")].
Proof. reflexivity. Qed.

Example fmt_examples :
Py.format_2f (Py.Finite false 1 (-3)) = "0.12" ∧
Py.format_2f (Py.Finite false 3 (-3)) = "0.38" ∧
Py.format_2f (Py.Finite false 12047679 (-22)) = "2.87" ∧
Py.format_2f (Py.Finite false 3 4) = "48.00".
Proof. repeat split; reflexivity. Qed.

(** The two scenarios of the specification, and a file that cannot be read. *)
Example scenario_added :
  Dd.compare_directories
    (Dd.Dir [("a.txt", Dd.File (Dd.Regular [Byte.x78] true))])
    (Dd.Dir [("a.txt", Dd.File (Dd.Regular [Byte.x78] true));
             ("b.txt", Dd.File (Dd.Regular [Byte.x79] true))]) None
  = {| Dd.added := ["b.txt"]; Dd.deleted := []; Dd.modified := [];
       Dd.identical := ["a.txt"]; Dd.errors := [] |}.
Proof. by vm_compute. Qed.

Example scenario_modified :
  Dd.compare_directories
    (Dd.Dir [("a.txt", Dd.File (Dd.Regular [Byte.x78] true))])
    (Dd.Dir [("a.txt", Dd.File (Dd.Regular [Byte.x79] true))]) None
  = {| Dd.added := []; Dd.deleted := []; Dd.modified := ["a.txt"];
       Dd.identical := []; Dd.errors := [] |}.
Proof. by vm_compute. Qed.

Example scenario_unreadable :
  Dd.compare_directories
    (Dd.Dir [("a.txt", Dd.File (Dd.Regular [Byte.x78] true));
             ("gone", Dd.File Dd.Dangling); ("old.txt", Dd.File Dd.Special)])
    (Dd.Dir [("a.txt", Dd.File (Dd.Regular [Byte.x78] false));
             ("gone", Dd.File (Dd.Regular [] true))]) None
  = {| Dd.added := []; Dd.deleted := ["old.txt"]; Dd.modified := [];
       Dd.identical := [];
       Dd.errors := [("a.txt", "[Errno 13] Permission denied: 'a.txt'");
                     ("gone", "File exists in listing but not accessible")] |}.
Proof. by vm_compute. Qed.

Example dirname_examples :
  Dd.os_path_dirname "out/site/report.html" = "out/site"
  ∧ Dd.os_path_dirname "report.html" = ""
  ∧ Dd.os_path_dirname "/report.html" = "/"
  ∧ Dd.diff_dir_of (Some "out/report.html") = "out/diffs"
  ∧ Dd.diff_dir_of (Some "report.html") = "diffs".
Proof. by split_and!. Qed.
